(** * OTTER: a shallow embedding of the main-process handlers and of the
    renderer's transcript logic, with the properties stated about them.

    Layout: the embedding comes first (modules [Js], [NodePath], [Main],
    [Codec], [MainCancel], [Renderer], [Engine], a host and the inputs of
    the worked examples; then [JsText], [MainMore], [MainEvents],
    [RendererUi] and [Preload] for the rest of the handlers, the
    transcript view over time and the preload helper), the theorems
    follow.

    JavaScript numbers are IEEE-754 binary64 values; they are modelled by
    the Standard Library's executable specification [SpecFloat.spec_float]
    at precision 53 and maximal exponent 1024, so comparisons, [Math.max],
    [||] and the rounding of [+] and [-] are the ones the program runs. *)

From Stdlib Require Import ZArith List String Ascii Bool Lia DecimalString.
From Stdlib Require Import Floats.SpecFloat.
From stdpp Require Import gmap strings list.

Set Warnings "-register-all".

Local Open Scope list_scope.
Local Open Scope string_scope.
Local Open Scope Z_scope.

(* ===================================================================== *)
(** ** JavaScript values and numbers                                      *)
(* ===================================================================== *)

Module Js.

Definition number : Type := spec_float.

Definition prec : Z := 53.
Definition emax : Z := 1024.

Definition NaN : number := S754_nan.
Definition pos_zero : number := S754_zero false.
Definition neg_zero : number := S754_zero true.
Definition neg_infinity : number := S754_infinity true.
Definition pos_infinity : number := S754_infinity false.

(** The double nearest to an integer (exact for |z| < 2^53). *)
Definition of_Z (z : Z) : number := binary_normalize prec emax z 0 false.

Definition add (x y : number) : number := SFadd prec emax x y.
Definition sub (x y : number) : number := SFsub prec emax x y.
Definition div (x y : number) : number := SFdiv prec emax x y.

(** [x < y], [x <= y], [x >= y] as JavaScript evaluates them: every
    comparison with NaN is false. *)
Definition ltb (x y : number) : bool := SFltb x y.
Definition leb (x y : number) : bool := SFleb x y.
Definition geb (x y : number) : bool := SFleb y x.

(** The decimal literals of the sources, each the correctly rounded double
    of its decimal value. *)
Definition lit_0_05 : number := Eval vm_compute in div (of_Z 5) (of_Z 100).
Definition lit_0_25 : number := Eval vm_compute in div (of_Z 25) (of_Z 100).
Definition lit_0_01 : number := Eval vm_compute in div (of_Z 1) (of_Z 100).

Definition isNaN (x : number) : bool :=
  match x with S754_nan => true | _ => false end.

Definition is_pos_zero (x : number) : bool :=
  match x with S754_zero false => true | _ => false end.

Definition is_neg_zero (x : number) : bool :=
  match x with S754_zero true => true | _ => false end.

(** ToBoolean on a number: NaN, +0 and -0 are falsy. *)
Definition truthy (x : number) : bool :=
  match x with
  | S754_nan | S754_zero _ => false
  | _ => true
  end.

(** [x || d] for numbers. *)
Definition or_else (x d : number) : number := if truthy x then x else d.

(** [Math.max(...args)] as ECMA-262 defines it: NaN if any argument is NaN;
    otherwise scan from -Infinity, preferring +0 over -0. *)
Definition max_step (highest n : number) : number :=
  if is_pos_zero n && is_neg_zero highest then pos_zero
  else if ltb highest n then n else highest.

Definition Math_max (args : list number) : number :=
  if existsb isNaN args then NaN
  else fold_left max_step args neg_infinity.

(** Primitive values, and values as they arrive over IPC (structured
    clone): a primitive, or an object given by what ToPrimitive yields. *)
Inductive prim : Type :=
| PUndefined
| PNull
| PBool (b : bool)
| PNumber (n : number)
| PBigInt (z : Z)
| PString (s : string).

Inductive value : Type :=
| VPrim (p : prim)
| VObject (toPrimitive : prim).

(** The two conversions of the runtime that the sources use and that are
    not arithmetic: [Number] applied to a string and [String] applied to a
    number. *)
Class Host : Type := {
  StringToNumber : string -> number;
  NumberToString : number -> string
}.

Section WithHost.
Context `{Host}.

Definition ToNumber_prim (p : prim) : number :=
  match p with
  | PUndefined => NaN
  | PNull => pos_zero
  | PBool true => of_Z 1
  | PBool false => pos_zero
  | PNumber n => n
  | PBigInt z => of_Z z
  | PString s => StringToNumber s
  end.

(** [Number(v)]. *)
Definition Number (v : value) : number :=
  match v with
  | VPrim p => ToNumber_prim p
  | VObject p => ToNumber_prim p
  end.

End WithHost.

(** A promise's final state. *)
Inductive settled (A : Type) : Type :=
| Resolved (a : A)
| Rejected (message : string).
Arguments Resolved {A} a.
Arguments Rejected {A} message.

End Js.

(* ===================================================================== *)
(** ** Node's [path] and [fs], as far as the handlers use them            *)
(* ===================================================================== *)

Module NodePath.

Definition slash : ascii := "/"%char.

(** [path.basename(p)] on POSIX: drop the trailing slashes, then keep what
    follows the last remaining slash. Node scans the string from its end;
    so does this definition, on the reversed list of characters. *)
Fixpoint drop_slashes (l : list ascii) : list ascii :=
  match l with
  | c :: l' => if Ascii.eqb c slash then drop_slashes l' else l
  | [] => []
  end.

Fixpoint take_until_slash (l : list ascii) : list ascii :=
  match l with
  | c :: l' => if Ascii.eqb c slash then [] else c :: take_until_slash l'
  | [] => []
  end.

Definition basename (p : string) : string :=
  string_of_list_ascii
    (rev (take_until_slash (drop_slashes (rev (list_ascii_of_string p))))).

(** The segments of a path string: the pieces between slashes. *)
Fixpoint segments_aux (cur : list ascii) (l : list ascii) : list string :=
  match l with
  | [] => [string_of_list_ascii (rev cur)]
  | c :: l' =>
      if Ascii.eqb c slash
      then string_of_list_ascii (rev cur) :: segments_aux [] l'
      else segments_aux (c :: cur) l'
  end.

Definition segments (p : string) : list string :=
  segments_aux [] (list_ascii_of_string p).

(** An absolute, normalised path is the list of its components, root
    first. [path.join(base, ...parts)] with an absolute [base] walks the
    segments of the parts: empty segments and "." are skipped, ".." drops
    the last component (and stays at the root when there is none). *)
Definition abs_path : Type := list string.

Definition step_segment (stack : abs_path) (seg : string) : abs_path :=
  if String.eqb seg "" then stack
  else if String.eqb seg "." then stack
  else if String.eqb seg ".." then removelast stack
  else (stack ++ [seg])%list.

Definition join (base : abs_path) (parts : list string) : abs_path :=
  fold_left step_segment (flat_map segments parts) base.

(** The file system as a tree. *)
Inductive node : Type :=
| File (content : string)
| Dir (entries : list (string * node)).

Fixpoint entry (name : string) (es : list (string * node)) : option node :=
  match es with
  | [] => None
  | (n, x) :: es' => if String.eqb n name then Some x else entry name es'
  end.

Fixpoint resolve (root : node) (p : abs_path) : option node :=
  match p with
  | [] => Some root
  | c :: rest =>
      match root with
      | Dir es =>
          match entry c es with
          | Some n => resolve n rest
          | None => None
          end
      | File _ => None
      end
  end.

Definition existsSync (root : node) (p : abs_path) : bool :=
  match resolve root p with Some _ => true | None => false end.

(** [fs.readFileSync(p, "utf-8")]: the content of a regular file, or the
    error thrown. *)
Definition readFileSync (root : node) (p : abs_path) : string + string :=
  match resolve root p with
  | Some (File c) => inl c
  | Some (Dir _) => inr "EISDIR: illegal operation on a directory, read"
  | None => inr "ENOENT: no such file or directory"
  end.

(** What a handler did to the file system, in order. *)
Inductive fs_op : Type :=
| OpExists (p : abs_path)
| OpRead (p : abs_path).

End NodePath.

(* ===================================================================== *)
(** ** src/main.ts: the main-process IPC handlers                         *)
(* ===================================================================== *)

Module Main.
Import Js NodePath.

(** A child process the handler spawned, with its argument vector. *)
Record spawned : Type := { command : string; argv : list string }.

(** How a child ended: the [close] event's exit code ([None] is the [null]
    of a child ended by a signal) and what it wrote to stderr, or the
    [error] event. *)
Inductive child_end : Type :=
| Closed (code : option Z) (stderr : string)
| SpawnError (message : string).

(** *** make-snippet *)

Section Snippet.
Context `{Host}.

(** [Math.max(0, Number(startSec) || 0)] *)
Definition safeStart (startSec : value) : number :=
  Math_max [pos_zero; or_else (Number startSec) pos_zero].

(** [Math.max(0.05, Number(durSec) || 0.05)] *)
Definition safeDur (durSec : value) : number :=
  Math_max [lit_0_05; or_else (Number durSec) lit_0_05].

Definition snippet_args (audioPath : string) (startSec durSec : value)
    (outPath : string) : list string :=
  [ "-hide_banner"; "-y";
    "-ss"; NumberToString (safeStart startSec);
    "-t"; NumberToString (safeDur durSec);
    "-i"; audioPath;
    "-c:a"; "pcm_s16le";
    outPath ].

(** The handler: [outPath] is the unique-ish name built from the clock and
    the random source; [ffmpeg] is how the spawned child ends. *)
Definition make_snippet (audioPath : string) (startSec durSec : value)
    (outPath : string) (ffmpeg : list string -> child_end)
  : list spawned * settled string :=
  let args := snippet_args audioPath startSec durSec outPath in
  ( [ {| command := "ffmpeg"; argv := args |} ],
    match ffmpeg args with
    | Closed (Some 0) err => Resolved outPath
    | Closed (Some code) err =>
        Rejected ("ffmpeg failed (" ++ NumberToString (of_Z code) ++
                  "): " ++ err)
    | Closed None err => Rejected ("ffmpeg failed (null): " ++ err)
    | SpawnError m => Rejected m
    end ).

End Snippet.

(** *** read-spec-file *)

(** [dir] is [path.join(repoRoot, "otter_py", "sample_specs")], where
    [repoRoot] is [path.join(__dirname, "..")]. *)
Definition repoRoot (dirname : abs_path) : abs_path := join dirname [".."].

Definition sample_specs (dirname : abs_path) : abs_path :=
  join (repoRoot dirname) ["otter_py"; "sample_specs"].

Definition read_spec_file (dirname : abs_path) (root : node) (name : string)
  : list fs_op * settled string :=
  let dir := sample_specs dirname in
  let safeName := basename name in
  if negb (String.eqb safeName name) then
    ([], Rejected "Invalid spec file name")
  else
    let fullPath := join dir [safeName] in
    if negb (existsSync root fullPath) then
      ([OpExists fullPath], Rejected ("Spec file not found: " ++ safeName))
    else
      ( [OpExists fullPath; OpRead fullPath],
        match readFileSync root fullPath with
        | inl content => Resolved content
        | inr err => Rejected err
        end ).

(** *** EDL types *)

Record EdlEntry : Type := {
  id : string;
  sourceStart : number;
  sourceEnd : number;
  label : string;
  muted : bool
}.

(** The parsed EDL. The TypeScript type fixes [version] to 1, but the
    object comes from [JSON.parse] and is not checked, so any integer can
    stand there; [entries] may be missing. *)
Record Edl : Type := {
  version : Z;
  sourceFile : string;
  entries : option (list EdlEntry);
  createdAt : string;
  modifiedAt : string
}.

(** *** load-edl *)

Record OpenDialogResult : Type := {
  open_canceled : bool;
  filePaths : list string
}.

Record LoadedEdl : Type := { path : string; content : string }.

(** [readFile p] is [fs.readFileSync(p, "utf-8")]: the text or the error
    thrown. The handler returns the raw text; it does not parse it. *)
Definition load_edl (result : OpenDialogResult)
    (readFile : string -> string + string)
  : list string * settled (option LoadedEdl) :=
  if open_canceled result || (length (filePaths result) =? 0)%nat then
    ([], Resolved None)
  else
    match filePaths result with
    | [] => ([], Resolved None)
    | filePath :: _ =>
        ( [filePath],
          match readFile filePath with
          | inl text => Resolved (Some {| path := filePath; content := text |})
          | inr err => Rejected err
          end )
    end.

(** *** export-edl-audio *)

Record SaveDialogResult : Type := {
  save_canceled : bool;
  filePath : string          (* the empty string is falsy, like undefined *)
}.

(** One [atrim] of the filter graph: the source range of entry [i]. *)
Record trim : Type := { trim_start : number; trim_end : number }.

Definition non_muted (edl : Edl) : list EdlEntry :=
  List.filter (fun e => negb (muted e)) (default [] (entries edl)).

Definition trim_of (e : EdlEntry) : trim :=
  {| trim_start := sourceStart e; trim_end := sourceEnd e |}.

(** The trims in the order the loop pushes them. *)
Definition trims (es : list EdlEntry) : list trim := map trim_of es.

Section ExportHandler.
Context `{Host}.

Definition index_string (i : nat) : string :=
  NumberToString (of_Z (Z.of_nat i)).

(** `[0]atrim=start=${e.sourceStart}:end=${e.sourceEnd},asetpts=PTS-STARTPTS[a${i}]` *)
Definition filterPart (i : nat) (t : trim) : string :=
  "[0]atrim=start=" ++ NumberToString (trim_start t) ++
  ":end=" ++ NumberToString (trim_end t) ++
  ",asetpts=PTS-STARTPTS[a" ++ index_string i ++ "]".

(** `[a${i}]` *)
Definition concatInput (i : nat) : string := "[a" ++ index_string i ++ "]".

(** The loop [for (let i = 0; i < entries.length; i++)], started at [i]. *)
Fixpoint filterParts_from (i : nat) (ts : list trim) : list string :=
  match ts with
  | [] => []
  | t :: ts' => filterPart i t :: filterParts_from (S i) ts'
  end.

Fixpoint concatInputs_from (i : nat) (ts : list trim) : list string :=
  match ts with
  | [] => []
  | _ :: ts' => concatInput i :: concatInputs_from (S i) ts'
  end.

Definition filterComplex (ts : list trim) : string :=
  String.concat "; " (filterParts_from 0 ts) ++
  "; " ++
  String.concat "" (concatInputs_from 0 ts) ++
  "concat=n=" ++ index_string (length ts) ++ ":v=0:a=1[out]".

Definition export_args (source : string) (ts : list trim) (out : string)
  : list string :=
  [ "-hide_banner"; "-y";
    "-i"; source;
    "-filter_complex"; filterComplex ts;
    "-map"; "[out]";
    "-c:a"; "pcm_s16le";
    out ].

(** What [JSON.parse(edlJson)] and the first read of the object gave: the
    exception thrown (a SyntaxError, or the TypeError of reading
    [entries] of [null]), or the object. *)
Inductive parse_result : Type :=
| ParseThrew (message : string)
| Parsed (edl : Edl).

(** The handler. [parsed] is the outcome of [JSON.parse(edlJson)];
    [dialog] is the save dialog's answer; [ffmpeg] is how the spawned
    child ends. The result is the children spawned and the promise's
    state ([Resolved None] is the [null] of a cancelled dialog). *)
Definition export_edl_audio (parsed : parse_result) (dialog : SaveDialogResult)
    (ffmpeg : list string -> child_end)
  : list spawned * settled (option string) :=
  match parsed with
  | ParseThrew message => ([], Rejected message)
  | Parsed edl =>
      let es := non_muted edl in
      if (length es =? 0)%nat then
        ([], Rejected "No non-muted segments to export.")
      else if save_canceled dialog || String.eqb (filePath dialog) "" then
        ([], Resolved None)
      else
        let args := export_args (sourceFile edl) (trims es) (filePath dialog) in
        ( [ {| command := "ffmpeg"; argv := args |} ],
          match ffmpeg args with
          | Closed (Some 0) err => Resolved (Some (filePath dialog))
          | Closed (Some code) err =>
              Rejected ("ffmpeg export failed (" ++
                        NumberToString (of_Z code) ++ "): " ++ err)
          | Closed None err => Rejected ("ffmpeg export failed (null): " ++ err)
          | SpawnError m => Rejected m
          end )
  end.

End ExportHandler.

(** The [-filter_complex] argument of the one child an export spawned. *)
Definition filter_graph_of (run : list spawned * settled (option string))
  : option string :=
  match fst run with
  | [child] => Some (nth 5 (argv child) "")
  | _ => None
  end.

(** The EDL with another [version]. *)
Definition with_version (v : Z) (edl : Edl) : Edl :=
  {| version := v;
     sourceFile := sourceFile edl;
     entries := entries edl;
     createdAt := createdAt edl;
     modifiedAt := modifiedAt edl |}.

End Main.

(* ===================================================================== *)
(** ** The codec collaborator (ffmpeg), at its boundary                   *)
(* ===================================================================== *)

(** ffmpeg is not part of the repository. Its contract is taken from the
    specification's codec boundary: a source range decodes to a buffer of
    samples, the encoder's sink receives the buffers in order and commits
    one file, the output. [decode] is a parameter. *)
Module Codec.
Import Js Main.

Section Contract.
Variable sample : Type.
Variable decode : list sample -> number -> number -> list sample.




End Contract.

End Codec.

(* ===================================================================== *)
(** ** The main process with cancellation (the revision of main.ts that
       tracks [activeProcess])                                            *)
(* ===================================================================== *)

Module MainCancel.
Import Js.

Inductive signal : Type := SIGTERM | SIGSTOP | SIGCONT | SIGKILL | SIGTSTP.

Definition pid : Type := nat.

(** The jobs the handlers start as child processes. *)
Inductive job : Type := Transcription | Export | Snippet.

(** [activeProcess] is the module-level variable. [running] and [kills]
    are the world the handlers act on: the children spawned and not yet
    closed, and the signals sent with [kill], latest first. *)
Record state : Type := {
  activeProcess : option pid;
  running : list (pid * job);
  kills : list (pid * signal)
}.

(** transcribe-audio, at [const child = spawn(...); activeProcess = child]. *)
Definition spawn_transcribe (child : pid) (s : state) : state :=
  {| activeProcess := Some child;
     running := (child, Transcription) :: running s;
     kills := kills s |}.

(** export-edl-audio (src/main.ts) and make-snippet keep their child in a
    local constant of the promise's executor; [activeProcess] is not
    assigned. *)
Definition spawn_ffmpeg (child : pid) (j : job) (s : state) : state :=
  {| activeProcess := activeProcess s;
     running := (child, j) :: running s;
     kills := kills s |}.

Definition send (s : state) (sig : signal) (delivered : pid -> signal -> bool)
  : state * bool :=
  match activeProcess s with
  | Some p =>
      ( {| activeProcess := activeProcess s;
           running := running s;
           kills := (p, sig) :: kills s |},
        delivered p sig )
  | None => (s, false)
  end.

(** cancel-transcription, pause-transcription, resume-transcription.
    [delivered] is what [child.kill] returns. *)
Definition cancel_transcription := fun s => send s SIGTERM.
Definition pause_transcription := fun s => send s SIGSTOP.
Definition resume_transcription := fun s => send s SIGCONT.

(** A promise keeps the first of the calls to [resolve] and [reject]. *)
Definition first_settle {A : Type} (calls : list (settled A))
    (otherwise : settled A) : settled A :=
  match calls with
  | c :: _ => c
  | [] => otherwise
  end.

(** The child's [close] handler of transcribe-audio. [code] is [None] for
    the [null] of a child ended by a signal; [parse] is [JSON.parse]. *)
Definition on_close `{Host} {T : Type} (parse : string -> option T)
    (child : pid) (code : option Z) (sig : option signal)
    (stdout stderr : string) (s : state) : state * settled T :=
  let s' := {| activeProcess := None;
               running := List.filter (fun r => negb (Nat.eqb (fst r) child)) (running s);
               kills := kills s |} in
  let in_switch :=
    match sig with
    | Some SIGKILL => [Rejected "transcription cancelled."]
    | Some SIGTSTP => [Rejected "transcription paused."]
    | _ => []
    end in
  let after_switch :=
    match code with
    | Some 0 =>
        match parse stdout with
        | Some parsed => Resolved parsed
        | None => Rejected ("Failed to parse JSON from transcribe:" ++ stdout)
        end
    | Some c =>
        Rejected ("transcribe exited with " ++ NumberToString (of_Z c) ++ stderr)
    | None => Rejected ("transcribe exited with null" ++ stderr)
    end in
  (s', first_settle in_switch after_switch).

End MainCancel.

(* ===================================================================== *)
(** ** renderer.ts: selection, detail window, playhead word               *)
(* ===================================================================== *)

Module Renderer.
Import Js.

Definition DETAIL_PAD_BEFORE : number := lit_0_25.
Definition DETAIL_PAD_AFTER : number := lit_0_25.

Record TranscriptWord : Type := {
  word : string;
  start : number;
  end_ : number
}.

(** A rendered [.word] span: its [data-index] and its class list. *)
Record word_el : Type := {
  data_index : Z;
  classList : list string
}.

(** The renderer's module-level state that the functions below touch. *)
Record state : Type := {
  selectionStart : option Z;
  selectionEnd : option Z;
  selectionAnchor : option Z;
  detailWinStartAbs : number;
  nodes : list word_el          (* transcriptEl.querySelectorAll(".word") *)
}.

Record range : Type := { range_start : Z; range_end : Z }.

Definition normalizeRange (a b : Z) : range :=
  if a <=? b then {| range_start := a; range_end := b |}
  else {| range_start := b; range_end := a |}.

(** [el.classList.toggle(name, force)] *)
Definition classList_toggle (name : string) (force : bool) (cl : list string)
  : list string :=
  if force then
    if existsb (String.eqb name) cl then cl else (cl ++ [name])%list
  else List.filter (fun c => negb (String.eqb name c)) cl.

Definition has_class (name : string) (el : word_el) : bool :=
  existsb (String.eqb name) (classList el).

Definition inRange (selStart selEnd : option Z) (idx : Z) : bool :=
  match selStart, selEnd with
  | Some a, Some b => (idx >=? a) && (idx <=? b)
  | _, _ => false
  end.

Definition setSelectionRange (start end' : option Z) (s : state) : state :=
  let s1 :=
    match start, end' with
    | Some a, Some b =>
        let r := normalizeRange a b in
        {| selectionStart := Some (range_start r);
           selectionEnd := Some (range_end r);
           selectionAnchor := selectionAnchor s;
           detailWinStartAbs := detailWinStartAbs s;
           nodes := nodes s |}
    | _, _ =>
        {| selectionStart := None;
           selectionEnd := None;
           selectionAnchor := None;
           detailWinStartAbs := detailWinStartAbs s;
           nodes := nodes s |}
    end in
  {| selectionStart := selectionStart s1;
     selectionEnd := selectionEnd s1;
     selectionAnchor := selectionAnchor s1;
     detailWinStartAbs := detailWinStartAbs s1;
     nodes :=
       map (fun el =>
              {| data_index := data_index el;
                 classList :=
                   classList_toggle "selected"
                     (inRange (selectionStart s1) (selectionEnd s1) (data_index el))
                     (classList el) |})
           (nodes s1) |}.

Record detail_window : Type := {
  winStart : number;
  winEnd : number;
  winDur : number
}.

Definition computeDetailWindow (start' end' : number) (s : state)
  : state * detail_window :=
  let ws := Math_max [pos_zero; sub start' DETAIL_PAD_BEFORE] in
  let we := Math_max [add ws lit_0_05; add end' DETAIL_PAD_AFTER] in
  ( {| selectionStart := selectionStart s;
       selectionEnd := selectionEnd s;
       selectionAnchor := selectionAnchor s;
       detailWinStartAbs := ws;
       nodes := nodes s |},
    {| winStart := ws; winEnd := we; winDur := sub we ws |} ).

(** The scan of the main waveform's [timeupdate] handler:
    [for (i = 0; i < words.length; i++) if (te >= start && te < end) break]. *)
Definition covers (te : number) (w : TranscriptWord) : bool :=
  geb te (start w) && ltb te (end_ w).

Fixpoint scan_from (i : Z) (te : number) (ws : list TranscriptWord) : Z :=
  match ws with
  | [] => -1
  | w :: ws' => if covers te w then i else scan_from (i + 1) te ws'
  end.

(** [const te = t + 0.01; ...; setPlayheadIndex(idx)]: the index handed to
    [setPlayheadIndex]. *)
Definition timeupdate_index (t : number) (words : list TranscriptWord) : Z :=
  scan_from 0 (add t lit_0_01) words.

(** The lookup as the specification words it, with the bias an argument:
    the first word, in order, with [start <= t + bias < end]; none when no
    span contains it. *)
Definition sourceTimeToActiveWord (sourceTime bias : number)
    (words : list TranscriptWord) (result : option nat) : Prop :=
  let te := add sourceTime bias in
  match result with
  | Some i =>
      (exists w, words !! i = Some w /\ covers te w = true) /\
      (forall j w, (j < i)%nat -> words !! j = Some w -> covers te w = false)
  | None => forall j w, words !! j = Some w -> covers te w = false
  end.

(** -1 is "no word". *)
Definition index_result (idx : Z) : option nat :=
  if idx <? 0 then None else Some (Z.to_nat idx).

End Renderer.

(* ===================================================================== *)
(** ** The editing engine: transcript document, commands, undo            *)
(* ===================================================================== *)

(** Modelled from the spec: the repository's sources hold no editing
    engine (the prototype is read-only); the TranscriptDocument, its
    operations, the Command variants and the UndoManager are written from
    sections 3, 4.1, 4.2 and 4.3 of the specification, with the splice
    semantics its design notes give for each command (doc/
    Transcript_Editing_v0.1.md, section 7.4). A command's forward mutation
    validates the data the command carries for its reversal against the
    document it is applied to, and rejects the command when they differ;
    the reverse mutation restores exactly that captured data. Failure
    returns no document: the caller keeps the document it had, which is
    the rollback of a failed Composite. *)
Module Engine.

Definition WordId : Type := string.

Record SampleSpan : Type := { startSample : N; endSample : N }.

Record Word : Type := {
  id : WordId;
  text : string;
  span : SampleSpan;
  confidence : option Js.number;
  speakerId : option string
}.

Record TranscriptDocument : Type := {
  wordsById : gmap WordId Word;
  order : list WordId
}.

Inductive error : Type :=
| InvalidSpan
| IndexOutOfRange
| DuplicateWordId
| CoverageViolation
| UnknownWord
| InvariantViolation
| NothingToUndo
| NothingToRedo.

Inductive result (A : Type) : Type :=
| Ok (a : A)
| Fail (e : error).
Arguments Ok {A} a.
Arguments Fail {A} e.

Definition bind {A B : Type} (r : result A) (k : A -> result B) : result B :=
  match r with
  | Ok a => k a
  | Fail e => Fail e
  end.


(** The media's length, the coverage policy flag, and the policy's check
    (the specification leaves the strict check open). *)
Record Config : Type := {
  totalSamples : N;
  strict : bool;
  coverage : gmap WordId Word -> list WordId -> bool
}.

(** *** SpanModel *)

Definition validate (total : N) (s : SampleSpan) : bool :=
  (startSample s <? endSample s)%N && (endSample s <=? total)%N.

Definition adjacent (a b : SampleSpan) : bool :=
  (endSample a =? startSample b)%N.

Definition merge (a b : SampleSpan) : SampleSpan :=
  {| startSample := startSample a; endSample := endSample b |}.

Definition span_eqb (a b : SampleSpan) : bool :=
  (startSample a =? startSample b)%N && (endSample a =? endSample b)%N.

(** *** TranscriptDocument operations *)

Definition with_order (d : TranscriptDocument) (o : list WordId)
  : TranscriptDocument :=
  {| wordsById := wordsById d; order := o |}.

Definition with_words (d : TranscriptDocument) (m : gmap WordId Word)
  : TranscriptDocument :=
  {| wordsById := m; order := order d |}.

Definition with_span (w : Word) (s : SampleSpan) : Word :=
  {| id := id w; text := text w; span := s;
     confidence := confidence w; speakerId := speakerId w |}.

Definition with_text (w : Word) (t : string) : Word :=
  {| id := id w; text := t; span := span w;
     confidence := confidence w; speakerId := speakerId w |}.

(** [order.splice(index, 0, ...ids)] *)
Definition splice_in (index : nat) (ids o : list WordId) : list WordId :=
  (take index o ++ ids ++ drop index o)%list.

(** [order.splice(startIndex, count)]: what is left, and what was removed. *)
Definition splice_out (startIndex count : nat) (o : list WordId)
  : list WordId * list WordId :=
  ((take startIndex o ++ drop (startIndex + count) o)%list,
   take count (drop startIndex o)).

(** Modelled from the spec: [deleteRange(startIndex, count)] removes
    [count] ids at [startIndex] and returns them; IndexOutOfRange when the
    range exceeds [order.length]. *)
Definition deleteRange (startIndex count : nat) (d : TranscriptDocument)
  : result (TranscriptDocument * list WordId) :=
  if (startIndex + count <=? length (order d))%nat then
    let '(rest, removed) := splice_out startIndex count (order d) in
    Ok (with_order d rest, removed)
  else Fail IndexOutOfRange.

(** Modelled from the spec: [insertRange(index, ids, newWordsById?)] adds
    the new word records first, then inserts the ids at [index];
    DuplicateWordId when an id already stands in [order] (or twice in
    [ids]). An operation that would break an invariant is rejected in
    full: a new record whose id already has one, and an id without a
    record, are InvariantViolations; an index past the end is
    IndexOutOfRange. *)
Definition insertRange (index : nat) (ids : list WordId)
    (newWordsById : gmap WordId Word) (d : TranscriptDocument)
  : result TranscriptDocument :=
  if negb (index <=? length (order d))%nat then Fail IndexOutOfRange
  else if negb (bool_decide (newWordsById ##ₘ wordsById d))
  then Fail InvariantViolation
  else
    let words := newWordsById ∪ wordsById d in
    if negb (bool_decide (Forall (fun i => is_Some (words !! i)) ids))
    then Fail InvariantViolation
    else if negb (bool_decide (NoDup ids /\ Forall (fun i => i ∉ order d) ids))
    then Fail DuplicateWordId
    else Ok {| wordsById := words; order := splice_in index ids (order d) |}.

(** Modelled from the spec: [moveRange(fromIndex, count, toIndex)] removes
    then reinserts a contiguous block; [toIndex] is read against the array
    after the removal; IndexOutOfRange on invalid indices. *)
Definition moveRange (fromIndex count toIndex : nat) (d : TranscriptDocument)
  : result (TranscriptDocument * list WordId) :=
  bind (deleteRange fromIndex count d) (fun '(d1, moved) =>
    if (toIndex <=? length (order d1))%nat
    then Ok (with_order d1 (splice_in toIndex moved (order d1)), moved)
    else Fail IndexOutOfRange).

(** One span change, with the span it replaces. *)
Record SpanChange : Type := {
  change_word : WordId;
  beforeSpan : SampleSpan;
  afterSpan : SampleSpan
}.

(** Modelled from the spec: one step of [updateSpan]. The word must
    exist, its span must be the one the change captured as [beforeSpan],
    and the new span must pass [validate]. *)
Definition refine (cfg : Config) (c : SpanChange) (d : TranscriptDocument)
  : result TranscriptDocument :=
  match wordsById d !! change_word c with
  | None => Fail UnknownWord
  | Some w =>
      if negb (span_eqb (span w) (beforeSpan c)) then Fail InvariantViolation
      else if negb (validate (totalSamples cfg) (afterSpan c))
      then Fail InvalidSpan
      else Ok (with_words d
                 (<[change_word c := with_span w (afterSpan c)]> (wordsById d)))
  end.

Fixpoint refine_all (cfg : Config) (cs : list SpanChange)
    (d : TranscriptDocument) : result TranscriptDocument :=
  match cs with
  | [] => Ok d
  | c :: cs' => bind (refine cfg c d) (refine_all cfg cs')
  end.

(** Modelled from the spec: [updateSpan(wordId, newSpan,
    neighborUpdates[])]; under the strict policy the result must pass the
    coverage check, else CoverageViolation. The default is permissive. *)
Definition updateSpan (cfg : Config) (change : SpanChange)
    (neighborUpdates : list SpanChange) (d : TranscriptDocument)
  : result TranscriptDocument :=
  bind (refine_all cfg (change :: neighborUpdates) d) (fun d' =>
    if strict cfg && negb (coverage cfg (wordsById d') (order d'))
    then Fail CoverageViolation
    else Ok d').



(** Modelled from the spec: [updateText(wordId, newText)], a pure text
    replacement; [expected] is the text the command captured. *)
Definition updateText (wordId : WordId) (expected newText : string)
    (d : TranscriptDocument) : result TranscriptDocument :=
  match wordsById d !! wordId with
  | None => Fail UnknownWord
  | Some w =>
      if negb (String.eqb (text w) expected) then Fail InvariantViolation
      else Ok (with_words d (<[wordId := with_text w newText]> (wordsById d)))
  end.

(** *** Commands *)

Inductive Command : Type :=
| DeleteWords (startIndex : nat) (removedWordIds : list WordId)
| InsertWords (index : nat) (insertedWordIds : list WordId)
    (insertedWordsById : gmap WordId Word)
| MoveRange (fromIndex count toIndex : nat) (movedWordIds : list WordId)
| UpdateWordSpan (change : SpanChange) (neighborAdjustments : list SpanChange)
| UpdateWordText (wordId : WordId) (beforeText afterText : string)
| Composite (commands : list Command).

Definition same_ids (a b : list WordId) : bool := bool_decide (a = b).

(** Modelled from the spec: the forward mutation of each Command variant,
    through the document's operations. A command whose captured reversal
    data (removed or moved ids, [beforeSpan], [beforeText]) differs from
    the document is rejected; a Composite applies its sub-commands in
    order and fails as a whole when one fails. *)
Fixpoint forward (cfg : Config) (c : Command) (d : TranscriptDocument)
  : result TranscriptDocument :=
  match c with
  | DeleteWords startIndex removed =>
      bind (deleteRange startIndex (length removed) d) (fun '(d', ids) =>
        if same_ids ids removed then Ok d' else Fail InvariantViolation)
  | InsertWords index ids new => insertRange index ids new d
  | MoveRange fromIndex count toIndex moved =>
      bind (moveRange fromIndex count toIndex d) (fun '(d', ids) =>
        if same_ids ids moved then Ok d' else Fail InvariantViolation)
  | UpdateWordSpan change neighbors => updateSpan cfg change neighbors d
  | UpdateWordText wordId before after => updateText wordId before after d
  | Composite cs =>
      (fix in_order (cs : list Command) (d : TranscriptDocument)
         : result TranscriptDocument :=
         match cs with
         | [] => Ok d
         | c :: cs' => bind (forward cfg c d) (in_order cs')
         end) cs d
  end.


(** *** CommandEngine / UndoManager *)

Record CommandEngine : Type := {
  document : TranscriptDocument;
  undoStack : list Command;
  redoStack : list Command
}.

(** Modelled from the spec: [apply(cmd)] executes the forward mutation,
    pushes [cmd] onto [undoStack] and clears [redoStack]. *)
Definition apply (cfg : Config) (c : Command) (e : CommandEngine)
  : result CommandEngine :=
  bind (forward cfg c (document e)) (fun d' =>
    Ok {| document := d'; undoStack := c :: undoStack e; redoStack := [] |}).


(** Modelled from the spec: [redo()], symmetric to [undo()]. *)
Definition redo (cfg : Config) (e : CommandEngine) : result CommandEngine :=
  match redoStack e with
  | [] => Fail NothingToRedo
  | c :: rest =>
      bind (forward cfg c (document e)) (fun d' =>
        Ok {| document := d'; undoStack := c :: undoStack e;
              redoStack := rest |})
  end.



End Engine.

(* ===================================================================== *)
(** ** A host for the worked examples                                     *)
(* ===================================================================== *)

(** The examples below only convert integer-valued doubles (below 2^53)
    and strings of decimal digits. On those, JavaScript's [String(n)] is
    the decimal numeral of the integer and [Number(s)] is the integer the
    digits denote; this host agrees with it there, and answers "NaN" and
    NaN elsewhere. *)
Module ExampleHost.
Import Js.

Definition integer_value (n : number) : option Z :=
  match n with
  | S754_zero _ => Some 0
  | S754_finite s m e =>
      let signed (z : Z) := if s then - z else z in
      if 0 <=? e then Some (signed (Z.pos m * 2 ^ e))
      else if Z.pos m mod 2 ^ (- e) =? 0
           then Some (signed (Z.pos m / 2 ^ (- e)))
           else None
  | _ => None
  end.

Definition decimal (z : Z) : string :=
  DecimalString.NilZero.string_of_int (Z.to_int z).

Definition example_NumberToString (n : number) : string :=
  match integer_value n with
  | Some z => decimal z
  | None => "NaN"
  end.

Definition example_StringToNumber (s : string) : number :=
  if String.eqb s "" then pos_zero
  else match DecimalString.NilZero.int_of_string s with
       | Some i => of_Z (Z.of_int i)
       | None => NaN
       end.

Definition host : Host := {|
  StringToNumber := example_StringToNumber;
  NumberToString := example_NumberToString
|}.

End ExampleHost.

(* ===================================================================== *)
(** ** Worked inputs                                                      *)
(* ===================================================================== *)

(** The renderer before anything is selected. *)
Definition state0 : Renderer.state :=
  {| Renderer.selectionStart := None;
     Renderer.selectionEnd := None;
     Renderer.selectionAnchor := None;
     Renderer.detailWinStartAbs := Js.pos_zero;
     Renderer.nodes := [] |}.

(** The double 0.7. *)
Definition lit_0_7 : Js.number := Eval vm_compute in Js.div (Js.of_Z 7) (Js.of_Z 10).

(** A word spanning [0.01, 1). *)
Definition word_at_10ms : Renderer.TranscriptWord :=
  {| Renderer.word := "hello";
     Renderer.start := Js.lit_0_01;
     Renderer.end_ := Js.of_Z 1 |}.

(** Three EDL entries: [0, 2), a muted [3, 5), and [5, 9). *)
Definition entry_0_2 : Main.EdlEntry :=
  {| Main.id := "w1"; Main.sourceStart := Js.of_Z 0; Main.sourceEnd := Js.of_Z 2;
     Main.label := "hello"; Main.muted := false |}.

Definition entry_3_5_muted : Main.EdlEntry :=
  {| Main.id := "w2"; Main.sourceStart := Js.of_Z 3; Main.sourceEnd := Js.of_Z 5;
     Main.label := "um"; Main.muted := true |}.

Definition entry_5_9 : Main.EdlEntry :=
  {| Main.id := "w3"; Main.sourceStart := Js.of_Z 5; Main.sourceEnd := Js.of_Z 9;
     Main.label := "world"; Main.muted := false |}.

(** An EDL with the given version, source, entries and modification
    date. *)
Definition edl_of (v : Z) (source : string) (es : list Main.EdlEntry)
    (modified : string) : Main.Edl :=
  {| Main.version := v; Main.sourceFile := source; Main.entries := Some es;
     Main.createdAt := "2026-01-01T00:00:00Z"; Main.modifiedAt := modified |}.

(** The save dialog answered with path [p]. *)
Definition save_to (p : string) : Main.SaveDialogResult :=
  {| Main.save_canceled := false; Main.filePath := p |}.

(** ffmpeg exiting with 0, and with 1. *)
Definition ffmpeg_ok : list string -> Main.child_end :=
  fun _ => Main.Closed (Some 0) "".

Definition ffmpeg_fails : list string -> Main.child_end :=
  fun _ => Main.Closed (Some 1) "No such file or directory".



(** An installation: the compiled main process in /app/dist, the pipeline
    specs in /app/otter_py/sample_specs, a file beside that directory. *)
Definition installed : NodePath.node :=
  NodePath.Dir
    [ ("app",
       NodePath.Dir
         [ ("dist", NodePath.Dir []);
           ("otter_py",
            NodePath.Dir
              [ ("sample_specs",
                 NodePath.Dir
                   [ ("default_spec.json", NodePath.File "{ steps: [] }") ]);
                ("secret.txt", NodePath.File "not a spec") ]) ]) ].

(** The open dialog answered with path [p]. *)
Definition opened (p : string) : Main.OpenDialogResult :=
  {| Main.open_canceled := false; Main.filePaths := [p] |}.

(** A disk whose one project file declares schema version 99 and an order
    that names a word absent from wordsById. *)
Definition disk_with_v99 (p : string) : string + string :=
  if String.eqb p "/projects/bad.json"
  then inl "{ version: 99, order: [w9], wordsById: {} }"
  else inr "ENOENT: no such file or directory".












(* ===================================================================== *)
(** ** JavaScript strings as sequences of UTF-16 code units              *)
(* ===================================================================== *)

(** Where a function looks at single characters beyond ASCII (the
    ellipsis, Unicode white space), a string is the list of its code
    units. *)
Module JsText.

Definition text : Type := list N.

(** The code units of an ASCII literal. *)
Definition lit (s : string) : text :=
  map N_of_ascii (list_ascii_of_string s).

Definition eqb (a b : text) : bool := bool_decide (a = b).

(** [\d]: the ASCII digits. *)
Definition is_digit (c : N) : bool := (48 <=? c)%N && (c <=? 57)%N.

(** [\s], and what [trim] removes: WhiteSpace and LineTerminator of
    ECMA-262. *)
Definition is_space (c : N) : bool :=
  existsb (N.eqb c)
    [9; 10; 11; 12; 13; 32; 160; 5760; 8232; 8233; 8239; 8287; 12288; 65279]%N
  || ((8192 <=? c)%N && (c <=? 8202)%N).

(** [s.trim()] is truthy: some code unit is not white space. *)
Definition trim_truthy (s : text) : bool := existsb (fun c => negb (is_space c)) s.

(** [s.lastIndexOf(c)], -1 when absent. *)
Fixpoint last_index (c : N) (s : text) : option nat :=
  match s with
  | [] => None
  | x :: s' =>
      match last_index c s' with
      | Some i => Some (S i)
      | None => if N.eqb x c then Some 0%nat else None
      end
  end.

Definition lastIndexOf (s : text) (c : N) : Z :=
  match last_index c s with
  | Some i => Z.of_nat i
  | None => -1
  end.

(** A relative index of [slice]: negative counts from the end; the result
    is clamped to [0, len]. *)
Definition relative_index (len : Z) (i : Z) : nat :=
  if i <? 0 then Z.to_nat (Z.max (len + i) 0) else Z.to_nat (Z.min i len).

(** [s.slice(start, end)]; [None] is an omitted [end]. *)
Definition slice (s : text) (start : Z) (end' : option Z) : text :=
  let len := Z.of_nat (length s) in
  let from := relative_index len start in
  let to := match end' with
            | Some e => relative_index len e
            | None => length s
            end in
  take (to - from) (drop from s).

(** [s.split(/\r?\n/)]: the pieces between line ends; a carriage return
    counts only right before a line feed. *)
Fixpoint split_lines_from (cur : text) (s : text) : list text :=
  match s with
  | [] => [rev cur]
  | c :: s' =>
      if N.eqb c 10 then rev cur :: split_lines_from [] s'
      else if N.eqb c 13 then
        match s' with
        | d :: s'' =>
            if N.eqb d 10 then rev cur :: split_lines_from [] s''
            else split_lines_from (c :: cur) s'
        | [] => split_lines_from (c :: cur) s'
        end
      else split_lines_from (c :: cur) s'
  end.

Definition split_lines (s : text) : list text := split_lines_from [] s.

(** The longest run of at most [n] leading digits. *)
Fixpoint leading_digits (n : nat) (s : text) : text :=
  match n, s with
  | S n', c :: s' => if is_digit c then c :: leading_digits n' s' else []
  | _, _ => []
  end.

(** [Number(ds)] for a string of ASCII digits. *)
Definition digits_value (ds : text) : Z :=
  fold_left (fun acc c => 10 * acc + (Z.of_N c - 48)) ds 0.

Fixpoint strip_prefix (p s : text) : option text :=
  match p, s with
  | [], _ => Some s
  | a :: p', b :: s' => if N.eqb a b then strip_prefix p' s' else None
  | _ :: _, [] => None
  end.

End JsText.

(* ===================================================================== *)
(** ** src/main.ts: the handlers beside the snippet and the export        *)
(* ===================================================================== *)

Module MainMore.
Import Js NodePath Main.

(** An absolute path as a string. *)
Definition path_string (p : abs_path) : string :=
  match p with
  | [] => "/"
  | _ => String.concat "" (map (fun c => "/" ++ c) p)
  end.

(** A directory entry's name as the operating system gives it: no slash,
    and none of "", "." and "..". *)
Definition plain_name (n : string) : Prop :=
  ~ In slash (list_ascii_of_string n) /\ n <> "" /\ n <> "." /\ n <> "..".

(** *** transcribe-audio: the interpreter and the argument vector *)

Inductive TranscribeSpec : Type :=
| SpecFile (name : string)
| SpecJson (jsonText : string).

(** [getPythonPath()]: the virtual environment's interpreter when it
    exists. *)
Definition getPythonPath (dirname : abs_path) (root : node) : string :=
  let venvPython := join (repoRoot dirname) [".venv"; "bin"; "python3"] in
  if existsSync root venvPython then path_string venvPython else "python3".

(** [path.join(repoRoot, "otter_py", "sample_specs", name)] *)
Definition specPath (dirname : abs_path) (name : string) : abs_path :=
  join (repoRoot dirname) ["otter_py"; "sample_specs"; name].

(** [argv]; [None] is a missing [spec], or one whose mode is neither
    "file" nor "json". *)
Definition transcribe_argv (dirname : abs_path) (audioPath : string)
    (spec : option TranscribeSpec) : list string :=
  ([ "-m"; "otter_py.transcribe"; "run"; "--audio"; audioPath ] ++
   match spec with
   | Some (SpecFile name) =>
       [ "--spec-file"; path_string (specPath dirname name) ]
   | Some (SpecJson jsonText) => [ "--spec-json"; jsonText ]
   | None =>
       [ "--spec-file"; path_string (specPath dirname "default_spec.json") ]
   end)%list.

(** *** transcribe-audio: the child's stderr *)

Inductive ipc_message : Type :=
| TranscribeProgress (pct : Z)
| TranscribeLog (line : JsText.text).

(** [line.match(/^PROGRESS:(\d{1,3})\s*$/)]: the digits captured. Digits
    and white space are disjoint, so the greedy run of up to three digits
    is the only candidate. *)
Definition match_progress (line : JsText.text) : option JsText.text :=
  match JsText.strip_prefix (JsText.lit "PROGRESS:") line with
  | Some rest =>
      let ds := JsText.leading_digits 3 rest in
      if (1 <=? length ds)%nat && forallb JsText.is_space (drop (length ds) rest)
      then Some ds
      else None
  | None => None
  end.

Definition on_line (line : JsText.text) : list ipc_message :=
  match match_progress line with
  | Some ds => [TranscribeProgress (JsText.digits_value ds)]
  | None =>
      if JsText.trim_truthy line
      then [TranscribeLog (line ++ [10%N])%list]
      else []
  end.

(** What one [data] chunk of stderr sends to the renderer, in order. *)
Definition on_stderr (chunk : JsText.text) : list ipc_message :=
  flat_map on_line (JsText.split_lines chunk).

(** *** list-spec-files *)

(** [String.prototype.toLowerCase] and [localeCompare] belong to the
    runtime and its locale. *)
Class Locale : Type := {
  toLowerCase : string -> string;
  localeCompare : string -> string -> Z
}.

(** [s.endsWith(suffix)] *)
Definition endsWith (s suffix : string) : bool :=
  let l := list_ascii_of_string s in
  let k := list_ascii_of_string suffix in
  (length k <=? length l)%nat &&
  bool_decide (drop (length l - length k) l = k).

Section SpecFiles.
Context `{Locale}.

(** [Array.prototype.sort] with the comparator
    [(a, b) => a.localeCompare(b)]: the stable sort, here by insertion
    (for a consistent comparator every stable sort gives this list). *)
Fixpoint insert_by_locale (x : string) (sorted : list string) : list string :=
  match sorted with
  | [] => [x]
  | y :: rest =>
      if localeCompare x y <? 0 then x :: y :: rest
      else y :: insert_by_locale x rest
  end.

Definition sort_by_locale (names : list string) : list string :=
  fold_left (fun sorted x => insert_by_locale x sorted) names [].

(** [d.isFile() && d.name.toLowerCase().endsWith(".json")] *)
Definition is_spec_file (d : string * node) : bool :=
  match snd d with
  | File _ => endsWith (toLowerCase (fst d)) ".json"
  | Dir _ => false
  end.

Definition list_spec_files (dirname : abs_path) (root : node)
  : settled (list string) :=
  match resolve root (sample_specs dirname) with
  | Some (Dir es) =>
      Resolved (sort_by_locale (map fst (List.filter is_spec_file es)))
  | Some (File _) =>
      Rejected ("ENOTDIR: not a directory, scandir '" ++
                path_string (sample_specs dirname) ++ "'")
  | None =>
      Rejected ("ENOENT: no such file or directory, scandir '" ++
                path_string (sample_specs dirname) ++ "'")
  end.

End SpecFiles.

(** *** save-edl *)




End MainMore.

(* ===================================================================== *)
(** ** The main process over time: children started, signalled, closed    *)
(* ===================================================================== *)

Module MainEvents.
Import Js MainCancel.

(** What happens to the main process of the revision with
    [activeProcess]: a handler is invoked, or a child closes. *)
Inductive event : Type :=
| StartTranscription (child : pid)
| StartFfmpeg (child : pid) (j : job)
| Cancel
| Pause
| Resume
| CloseTranscription (child : pid) (code : option Z) (sig : option signal)
    (stdout stderr : string)
| CloseFfmpeg (child : pid).

(** The [close] handlers of the ffmpeg children settle their promise and
    touch no module-level variable; the child leaves the running jobs. *)
Definition close_ffmpeg (child : pid) (s : state) : state :=
  {| activeProcess := activeProcess s;
     running :=
       List.filter
         (fun r => negb (Nat.eqb (fst r) child &&
                         match snd r with Transcription => false | _ => true end))
         (running s);
     kills := kills s |}.



Section Run.
Context `{Host}.
Variable delivered : pid -> signal -> bool.

Definition step (s : state) (ev : event) : state :=
  match ev with
  | StartTranscription child => spawn_transcribe child s
  | StartFfmpeg child j => spawn_ffmpeg child j s
  | Cancel => fst (cancel_transcription s delivered)
  | Pause => fst (pause_transcription s delivered)
  | Resume => fst (resume_transcription s delivered)
  | CloseTranscription child code sig stdout stderr =>
      fst (on_close (T := unit) (fun _ => None) child code sig stdout stderr s)
  | CloseFfmpeg child => close_ffmpeg child s
  end.

Definition run (events : list event) (s : state) : state :=
  fold_left step events s.

End Run.

End MainEvents.

(* ===================================================================== *)
(** ** renderer.ts: the transcript view over time                         *)
(* ===================================================================== *)

Module RendererUi.
Import Js Renderer.

Definition SEEK_EPS : number := lit_0_01.

(** The renderer's variables that the transcript view reads and writes.
    [dom] holds the selection, [detailWinStartAbs] and the [.word] spans
    of [transcriptEl]; [rendered] is the array the click handlers of the
    present spans closed over ([renderTranscript]'s parameter). *)
Record ui : Type := {
  dom : Renderer.state;
  audioPath : option string;
  words : list TranscriptWord;
  rendered : list TranscriptWord;
  playheadIndex : Z
}.

Definition with_nodes (ns : list word_el) (s : Renderer.state) : Renderer.state :=
  {| selectionStart := selectionStart s;
     selectionEnd := selectionEnd s;
     selectionAnchor := selectionAnchor s;
     detailWinStartAbs := detailWinStartAbs s;
     nodes := ns |}.

Definition with_anchor (a : option Z) (s : Renderer.state) : Renderer.state :=
  {| selectionStart := selectionStart s;
     selectionEnd := selectionEnd s;
     selectionAnchor := a;
     detailWinStartAbs := detailWinStartAbs s;
     nodes := nodes s |}.

Definition with_dom (d : Renderer.state) (u : ui) : ui :=
  {| dom := d;
     audioPath := audioPath u;
     words := words u;
     rendered := rendered u;
     playheadIndex := playheadIndex u |}.

(** [const el = transcriptEl.querySelector(sel); if (el) f(el)]: the
    first element, in document order, that matches. *)
Fixpoint update_first {A : Type} (p : A -> bool) (f : A -> A) (l : list A)
  : list A :=
  match l with
  | [] => []
  | x :: l' => if p x then f x :: l' else x :: update_first p f l'
  end.

Definition set_classes (f : list string -> list string) (el : word_el)
  : word_el :=
  {| data_index := data_index el; classList := f (classList el) |}.

(** [setPlayheadIndex(idx)]. The spans are all [.word] elements, so
    [.word.playhead] selects by the class [playhead], and
    [.word[data-index=...]] by the index. *)
Definition setPlayheadIndex (idx : Z) (u : ui) : ui :=
  if playheadIndex u =? idx then u
  else
    let ns1 :=
      update_first (has_class "playhead")
        (set_classes (classList_toggle "playhead" false)) (nodes (dom u)) in
    let ns2 :=
      if idx >=? 0 then
        update_first (fun el => data_index el =? idx)
          (set_classes (classList_toggle "playhead" true)) ns1
      else ns1 in
    {| dom := with_nodes ns2 (dom u);
       audioPath := audioPath u;
       words := words u;
       rendered := rendered u;
       playheadIndex := idx |}.

(** The spans [renderTranscript] creates, one per word, from index [i]. *)
Fixpoint spans_from (i : Z) (ws : list TranscriptWord) : list word_el :=
  match ws with
  | [] => []
  | _ :: ws' => {| data_index := i; classList := ["word"] |} :: spans_from (i + 1) ws'
  end.

(** [renderTranscript(words)] *)
Definition renderTranscript (ws : list TranscriptWord) (u : ui) : ui :=
  let d0 := with_nodes (spans_from 0 ws) (dom u) in
  let d1 :=
    match selectionStart d0, selectionEnd d0 with
    | Some a, Some b =>
        let maxIdx := Z.of_nat (length ws) - 1 in
        if (a >? maxIdx) || (b >? maxIdx) then setSelectionRange None None d0
        else setSelectionRange (Some a) (Some b) d0
    | _, _ => d0
    end in
  let u1 := {| dom := d1;
               audioPath := audioPath u;
               words := words u;
               rendered := ws;
               playheadIndex := playheadIndex u |} in
  if (playheadIndex u >=? 0) && (playheadIndex u <? Z.of_nat (length ws))
  then setPlayheadIndex (playheadIndex u) u1
  else setPlayheadIndex (-1) u1.

(** [words[i]]; [None] is [undefined]. *)
Definition word_at (ws : list TranscriptWord) (i : Z) : option TranscriptWord :=
  if i <? 0 then None else ws !! Z.to_nat i.

(** What a click on a word leads to. [seek] is the time given to
    [ws.setTime]. *)
Inductive click_outcome : Type :=
| NoSuchSpan
| Threw (seek : number)
| NoAudioLoaded (seek : number)
| SnippetRequested (seek : number) (audio : string) (startSec durSec : number).

(** The click handler of the span with index [i], up to its call of
    [otter.makeSnippet] in [loadDetailForRange]. Reading [.start] of a
    missing word throws a TypeError. *)
Definition click (shiftKey : bool) (i : Z) (u : ui) : ui * click_outcome :=
  match (if existsb (fun el => data_index el =? i) (nodes (dom u))
         then word_at (rendered u) i else None) with
  | None => (u, NoSuchSpan)
  | Some w =>
      let d1 :=
        match shiftKey, selectionAnchor (dom u) with
        | true, Some a => setSelectionRange (Some a) (Some i) (dom u)
        | _, _ => setSelectionRange (Some i) (Some i) (with_anchor (Some i) (dom u))
        end in
      let seek := add (start w) SEEK_EPS in
      let u1 := setPlayheadIndex i (with_dom d1 u) in
      let rangeStartIdx :=
        match selectionStart (dom u1) with Some a => a | None => i end in
      let rangeEndIdx :=
        match selectionEnd (dom u1) with Some b => b | None => i end in
      match word_at (rendered u1) rangeStartIdx, word_at (rendered u1) rangeEndIdx with
      | Some ws, Some we =>
          match audioPath u1 with
          | Some p =>
              if String.eqb p "" then (u1, NoAudioLoaded seek)
              else
                let r := computeDetailWindow (start ws) (end_ we) (dom u1) in
                ( with_dom (fst r) u1,
                  SnippetRequested seek p (winStart (snd r)) (winDur (snd r)) )
          | None => (u1, NoAudioLoaded seek)
          end
      | _, _ => (u1, Threw seek)
      end
  end.

(** What happens to the view: a click on a span, a [timeupdate] of the
    main waveform, a transcript arriving ([words = ...;
    renderTranscript(words)]), and the two halves of the "Choose File"
    handler, before and after its dialog. *)
Inductive event : Type :=
| Click (shiftKey : bool) (i : Z)
| TimeUpdate (t : number)
| Transcribed (result : list TranscriptWord)
| ChooseClicked
| ChooseAnswered (chosen : option string).

Definition step (u : ui) (ev : event) : ui :=
  match ev with
  | Click shiftKey i => fst (click shiftKey i u)
  | TimeUpdate t => setPlayheadIndex (timeupdate_index t (words u)) u
  | Transcribed result =>
      renderTranscript result
        {| dom := dom u;
           audioPath := audioPath u;
           words := result;
           rendered := rendered u;
           playheadIndex := playheadIndex u |}
  | ChooseClicked => with_dom (with_nodes [] (dom u)) u
  | ChooseAnswered chosen =>
      {| dom := dom u;
         audioPath := chosen;
         words := words u;
         rendered := rendered u;
         playheadIndex := playheadIndex u |}
  end.

Definition run (events : list event) (u : ui) : ui := fold_left step events u.

(** The module-level initial values. *)
Definition initial : ui :=
  {| dom := {| selectionStart := None;
               selectionEnd := None;
               selectionAnchor := None;
               detailWinStartAbs := pos_zero;
               nodes := [] |};
     audioPath := None;
     words := [];
     rendered := [];
     playheadIndex := -1 |}.

(** The view's consistency: the selection is empty or lies within the
    words, with the anchor inside it; the playhead index is -1 or a
    word's; the spans carry distinct indices of words; only the span of
    the playhead index can carry the playhead mark, and a span is marked
    selected exactly when its index is in the selection. *)
Definition selection_ok (u : ui) : Prop :=
  match selectionStart (dom u), selectionEnd (dom u), selectionAnchor (dom u) with
  | None, None, None => True
  | Some a, Some b, Some c =>
      0 <= a /\ a <= c /\ c <= b /\ b < Z.of_nat (length (words u))
  | _, _, _ => False
  end.

Definition spans_ok (u : ui) : Prop :=
  (nodes (dom u) = [] \/ rendered u = words u) /\
  (forall el, In el (nodes (dom u)) ->
     0 <= data_index el < Z.of_nat (length (words u))) /\
  NoDup (map data_index (nodes (dom u))).

Definition marks_ok (u : ui) : Prop :=
  -1 <= playheadIndex u < Z.of_nat (length (words u)) /\
  (forall el, In el (nodes (dom u)) ->
     has_class "playhead" el = true -> data_index el = playheadIndex u) /\
  (forall el, In el (nodes (dom u)) ->
     has_class "selected" el =
       inRange (selectionStart (dom u)) (selectionEnd (dom u)) (data_index el)).

Definition consistent (u : ui) : Prop :=
  selection_ok u /\ spans_ok u /\ marks_ok u.

(** *** shortenFilenameMiddle *)

Definition ellipsis : N := 8230.
Definition full_stop : N := 46.

(** [shortenFilenameMiddle(filename, maxLength)], for an integer
    [maxLength]; [Math.ceil(n / 2)] and [Math.floor(n / 2)] of an integer
    [n] are [(n + 1) / 2] and [n / 2] rounded down. *)
Definition shortenFilenameMiddle (filename : JsText.text) (maxLength : Z)
  : JsText.text :=
  if Z.of_nat (length filename) <=? maxLength then filename
  else
    let dot := JsText.lastIndexOf filename full_stop in
    let ext := if dot =? -1 then [] else JsText.slice filename dot None in
    let base := if dot =? -1 then filename
                else JsText.slice filename 0 (Some dot) in
    let maxBase := maxLength - Z.of_nat (length ext) - 1 in
    let front := (maxBase + 1) / 2 in
    let back := maxBase / 2 in
    (JsText.slice base 0 (Some front) ++ [ellipsis] ++
     JsText.slice base (- back) None ++ ext)%list.

End RendererUi.

(* ===================================================================== *)
(** ** preload.ts: readFileAsArrayBuffer                                  *)
(* ===================================================================== *)

Module Preload.
Import Js.

(** A Node [Buffer]: a view of [byteLength] bytes at [byteOffset] into an
    [ArrayBuffer], which small buffers share as a pool. *)
Record Buffer : Type := {
  buffer : list N;
  byteOffset : nat;
  byteLength : nat
}.

Definition bytes_of (b : Buffer) : list N :=
  take (byteLength b) (drop (byteOffset b) (buffer b)).

(** [fs.readFile]'s callback gets an error or a buffer.
    [ArrayBuffer.prototype.slice] takes relative indices as
    [String.prototype.slice] does. *)
Definition readFileAsArrayBuffer (readFile : string -> string + Buffer)
    (filePath : string) : settled (list N) :=
  match readFile filePath with
  | inl err => Rejected err
  | inr buf =>
      Resolved
        (JsText.slice (buffer buf) (Z.of_nat (byteOffset buf))
           (Some (Z.of_nat (byteOffset buf) + Z.of_nat (byteLength buf))))
  end.

End Preload.

(* ===================================================================== *)
(** ** Further worked inputs                                              *)
(* ===================================================================== *)

(** A locale for ASCII names: lower case of the letters A to Z, and the
    order of the code units. *)
Definition ascii_lower (c : ascii) : ascii :=
  let n := nat_of_ascii c in
  if ((65 <=? n) && (n <=? 90))%nat then ascii_of_nat (n + 32) else c.

Definition ascii_locale : MainMore.Locale :=
  {| MainMore.toLowerCase :=
       fun s => string_of_list_ascii (map ascii_lower (list_ascii_of_string s));
     MainMore.localeCompare :=
       fun a b => match String.compare a b with
                  | Lt => -1
                  | Eq => 0
                  | Gt => 1
                  end |}.

(** A transcript of three words, one per second. *)
Definition three_words : list Renderer.TranscriptWord :=
  [ {| Renderer.word := "hello"; Renderer.start := Js.of_Z 0; Renderer.end_ := Js.of_Z 1 |};
    {| Renderer.word := "big"; Renderer.start := Js.of_Z 1; Renderer.end_ := Js.of_Z 2 |};
    {| Renderer.word := "world"; Renderer.start := Js.of_Z 2; Renderer.end_ := Js.of_Z 3 |} ].

(** A file is chosen and transcribed, the second word is clicked, and the
    third with the shift key held. *)
Definition two_clicks : list RendererUi.event :=
  [ RendererUi.ChooseClicked;
    RendererUi.ChooseAnswered (Some "/audio/talk.wav");
    RendererUi.Transcribed three_words;
    RendererUi.Click false 1;
    RendererUi.Click true 2 ].

(** A file of three bytes read into a pool of five. *)
Definition pooled_read : string -> string + Preload.Buffer :=
  fun _ => inr {| Preload.buffer := [1; 2; 3; 4; 5]%N;
                  Preload.byteOffset := 1;
                  Preload.byteLength := 3 |}.

(** The EDL of the two kept entries alone, under other ids and labels. *)
Definition entries_kept_renamed : list Main.EdlEntry :=
  [ {| Main.id := "a"; Main.sourceStart := Js.of_Z 0; Main.sourceEnd := Js.of_Z 2;
       Main.label := ""; Main.muted := false |};
    {| Main.id := "b"; Main.sourceStart := Js.of_Z 5; Main.sourceEnd := Js.of_Z 9;
       Main.label := ""; Main.muted := false |} ].


(* ===================================================================== *)
(** * Theorems                                                            *)
(* ===================================================================== *)

(** ** Numbers: comparisons and [Math.max] *)

Section NumberFacts.
Import Js.

Lemma compare_refl (x : number) :
  isNaN x = false -> SFcompare x x = Some Eq.
Proof.
  destruct x as [s|s| |s m e]; simpl; try discriminate; intros _.
  - reflexivity.
  - destruct s; reflexivity.
  - destruct s; rewrite Z.compare_refl, Pos.compare_cont_refl; reflexivity.
Qed.

Lemma leb_refl (x : number) : isNaN x = false -> leb x x = true.
Proof.
  intros Hx. unfold leb, SFleb. rewrite (compare_refl x Hx). reflexivity.
Qed.

Lemma ltb_leb (x y : number) : ltb x y = true -> leb x y = true.
Proof.
  unfold ltb, leb, SFltb, SFleb.
  destruct (SFcompare x y) as [[]|]; congruence.
Qed.

Lemma max_step_from_bottom (a : number) :
  isNaN a = false -> max_step neg_infinity a = a.
Proof.
  destruct a as [s|s| |s m e]; simpl; try discriminate; intros _;
    unfold max_step; simpl; try destruct s; reflexivity.
Qed.

Lemma Math_max_pair (a b : number) :
  isNaN a = false -> isNaN b = false ->
  Math_max [a; b] = max_step a b.
Proof.
  intros Ha Hb. unfold Math_max. simpl. rewrite Ha, Hb. simpl.
  rewrite (max_step_from_bottom a Ha). reflexivity.
Qed.

Lemma max_step_not_nan (a b : number) :
  isNaN a = false -> isNaN b = false -> isNaN (max_step a b) = false.
Proof.
  intros Ha Hb. unfold max_step.
  destruct (is_pos_zero b && is_neg_zero a); [reflexivity|].
  destruct (ltb a b); assumption.
Qed.

Lemma max_step_ge_left (a b : number) :
  isNaN a = false -> isNaN b = false -> leb a (max_step a b) = true.
Proof.
  intros Ha Hb. unfold max_step.
  destruct (is_pos_zero b && is_neg_zero a) eqn:Hz.
  - apply andb_prop in Hz as [_ Hz].
    destruct a as [[]|?| |? ? ?]; simpl in Hz; try discriminate. reflexivity.
  - destruct (ltb a b) eqn:Hlt.
    + apply ltb_leb. exact Hlt.
    + apply leb_refl. exact Ha.
Qed.

Lemma Math_max_pair_ge_left (a b : number) :
  isNaN a = false -> isNaN b = false -> leb a (Math_max [a; b]) = true.
Proof.
  intros Ha Hb. rewrite Math_max_pair by assumption.
  apply max_step_ge_left; assumption.
Qed.

Lemma or_else_not_nan (x d : number) :
  isNaN d = false -> isNaN (or_else x d) = false.
Proof.
  intros Hd. unfold or_else. destruct x; simpl; auto.
Qed.

(** Rounding a positive mantissa never yields NaN: the shifts keep the
    mantissa non-negative. *)
Lemma shr_1_nonneg (r : shr_record) : 0 <= shr_m r -> 0 <= shr_m (shr_1 r).
Proof.
  destruct r as [m rb sb]. simpl. intros Hm.
  destruct m as [|p|p]; simpl; try lia; destruct p; simpl; lia.
Qed.

Lemma iter_shr_1_nonneg (p : positive) (r : shr_record) :
  0 <= shr_m r -> 0 <= shr_m (SpecFloat.iter_pos shr_1 p r).
Proof.
  revert r. induction p as [p IH|p IH|]; intros r Hr; simpl.
  - apply IH, IH, shr_1_nonneg, Hr.
  - apply IH, IH, Hr.
  - apply shr_1_nonneg, Hr.
Qed.

Lemma shr_nonneg (r : shr_record) (e n : Z) :
  0 <= shr_m r -> 0 <= shr_m (fst (shr r e n)).
Proof.
  intros Hr. unfold shr. destruct n; simpl; auto using iter_shr_1_nonneg.
Qed.

Lemma shr_fexp_nonneg (m e : Z) (l : location) :
  0 <= m -> 0 <= shr_m (fst (shr_fexp prec emax m e l)).
Proof.
  intros Hm. unfold shr_fexp. apply shr_nonneg.
  destruct l as [|[]]; simpl; exact Hm.
Qed.

Lemma round_nearest_even_nonneg (m : Z) (l : location) :
  0 <= m -> 0 <= round_nearest_even m l.
Proof.
  intros Hm. unfold round_nearest_even.
  destruct l as [|[]]; try lia. destruct (Z.even m); lia.
Qed.

Lemma binary_round_aux_not_nan (s : bool) (m e : Z) (l : location) :
  0 <= m -> isNaN (binary_round_aux prec emax s m e l) = false.
Proof.
  intros Hm. unfold binary_round_aux.
  pose proof (shr_fexp_nonneg m e l Hm) as H1.
  destruct (shr_fexp prec emax m e l) as [mrs' e'] eqn:E1. simpl in H1.
  pose proof (shr_fexp_nonneg
                (round_nearest_even (shr_m mrs') (loc_of_shr_record mrs'))
                e' loc_Exact
                (round_nearest_even_nonneg _ _ H1)) as H2.
  destruct (shr_fexp prec emax _ e' loc_Exact) as [mrs'' e''] eqn:E2.
  simpl in H2.
  destruct (shr_m mrs'') as [|p|p]; simpl.
  - reflexivity.
  - destruct (e'' <=? emax - prec); reflexivity.
  - lia.
Qed.

Lemma binary_normalize_not_nan (m e : Z) (sz : bool) :
  isNaN (binary_normalize prec emax m e sz) = false.
Proof.
  unfold binary_normalize, binary_round.
  destruct m as [|p|p]; [reflexivity| |];
    destruct (shl_align _ _ _) as [mz ez];
    apply binary_round_aux_not_nan; lia.
Qed.

(** [x - c] and [x + c] are NaN only when [x] is, for a finite [c]. *)
Lemma sub_finite_not_nan (x : number) (s : bool) (m : positive) (e : Z) :
  isNaN x = false -> isNaN (sub x (S754_finite s m e)) = false.
Proof.
  destruct x as [sx|sx| |sx mx ex]; simpl; try discriminate; intros _;
    try reflexivity.
  apply binary_normalize_not_nan.
Qed.

Lemma add_finite_not_nan (x : number) (s : bool) (m : positive) (e : Z) :
  isNaN x = false -> isNaN (add x (S754_finite s m e)) = false.
Proof.
  destruct x as [sx|sx| |sx mx ex]; simpl; try discriminate; intros _;
    try reflexivity.
  apply binary_normalize_not_nan.
Qed.

End NumberFacts.

(** ** make-snippet and the detail window (C8) *)

Section SnippetClamp.
Import Js Main Renderer.
Context `{Host}.

Lemma safeStart_ge_0 (startSec : value) :
  geb (safeStart startSec) pos_zero = true.
Proof.
  unfold geb, safeStart. fold (leb pos_zero (Math_max [pos_zero; or_else (Number startSec) pos_zero])).
  apply Math_max_pair_ge_left; [reflexivity|].
  apply or_else_not_nan. reflexivity.
Qed.

Lemma safeDur_ge_min (durSec : value) :
  geb (safeDur durSec) lit_0_05 = true.
Proof.
  unfold geb, safeDur. fold (leb lit_0_05 (Math_max [lit_0_05; or_else (Number durSec) lit_0_05])).
  apply Math_max_pair_ge_left; [reflexivity|].
  apply or_else_not_nan. reflexivity.
Qed.

Lemma winStart_ge_0 (start' end' : number) (s : state) :
  isNaN start' = false ->
  geb (winStart (snd (computeDetailWindow start' end' s))) pos_zero = true.
Proof.
  intros Hs. unfold computeDetailWindow, geb. simpl.
  fold (leb pos_zero (Math_max [pos_zero; sub start' DETAIL_PAD_BEFORE])).
  apply Math_max_pair_ge_left; [reflexivity|].
  apply sub_finite_not_nan. exact Hs.
Qed.

Lemma winStart_not_nan (start' end' : number) (s : state) :
  isNaN start' = false ->
  isNaN (winStart (snd (computeDetailWindow start' end' s))) = false.
Proof.
  intros Hs. unfold computeDetailWindow. simpl.
  rewrite Math_max_pair; [|reflexivity|apply sub_finite_not_nan; exact Hs].
  apply max_step_not_nan; [reflexivity|apply sub_finite_not_nan; exact Hs].
Qed.

Lemma winEnd_ge_min (start' end' : number) (s : state) :
  isNaN start' = false -> isNaN end' = false ->
  let w := snd (computeDetailWindow start' end' s) in
  geb (winEnd w) (add (winStart w) lit_0_05) = true.
Proof.
  intros Hs He w. subst w.
  pose proof (winStart_not_nan start' end' s Hs) as Hw.
  unfold computeDetailWindow, geb in *. simpl in *.
  set (ws := Math_max [pos_zero; sub start' DETAIL_PAD_BEFORE]) in *.
  fold (leb (add ws lit_0_05) (Math_max [add ws lit_0_05; add end' DETAIL_PAD_AFTER])).
  apply Math_max_pair_ge_left; apply add_finite_not_nan; assumption.
Qed.

(** C8 (amended). Whatever [startSec] and [durSec] are (negative, zero,
    NaN, strings, objects, ...), make-snippet spawns ffmpeg once with
    [-ss String(s)] and [-t String(d)] where [s >= 0] and [d >= 0.05];
    and for a [start] and [end] that are not NaN, [computeDetailWindow]
    yields [winStart >= 0] and [winEnd >= winStart + 0.05], stores
    [winStart] in [detailWinStartAbs] and returns
    [winDur = winEnd - winStart]. *)
Theorem make_snippet_clamps_request :
  (forall (audioPath : string) (startSec durSec : value) (outPath : string)
          (ffmpeg : list string -> child_end),
      exists s d : number,
        fst (make_snippet audioPath startSec durSec outPath ffmpeg) =
          [ {| command := "ffmpeg";
               argv := [ "-hide_banner"; "-y";
                         "-ss"; NumberToString s;
                         "-t"; NumberToString d;
                         "-i"; audioPath;
                         "-c:a"; "pcm_s16le";
                         outPath ] |} ] /\
        geb s pos_zero = true /\
        geb d lit_0_05 = true) /\
  (forall (start' end' : number) (st : state),
      let w := snd (computeDetailWindow start' end' st) in
      winDur w = sub (winEnd w) (winStart w) /\
      detailWinStartAbs (fst (computeDetailWindow start' end' st)) = winStart w /\
      (isNaN start' = false -> geb (winStart w) pos_zero = true) /\
      (isNaN start' = false -> isNaN end' = false ->
         geb (winEnd w) (add (winStart w) lit_0_05) = true)).
Proof.
  split.
  - intros audioPath startSec durSec outPath ffmpeg.
    exists (safeStart startSec), (safeDur durSec).
    split; [reflexivity|].
    split; [apply safeStart_ge_0 | apply safeDur_ge_min].
  - intros start' end' st w. subst w.
    split; [reflexivity|]. split; [reflexivity|].
    split.
    + apply winStart_ge_0.
    + apply winEnd_ge_min.
Qed.

End SnippetClamp.

(** A request with a NaN start and the duration "-3": ffmpeg is asked for
    [-ss 0 -t 0.05]; and the window of the word [1, 2) is [0.75, 2.25). *)
Lemma make_snippet_clamps_request_example :
  (exists s d : Js.number,
     Main.snippet_args (H := ExampleHost.host) "/audio/talk.wav"
       (Js.VPrim (Js.PNumber Js.NaN)) (Js.VPrim (Js.PString "-3"))
       "/snippets/snippet_1_2.wav"
     = [ "-hide_banner"; "-y";
         "-ss"; Js.NumberToString (Host := ExampleHost.host) s;
         "-t"; Js.NumberToString (Host := ExampleHost.host) d;
         "-i"; "/audio/talk.wav"; "-c:a"; "pcm_s16le";
         "/snippets/snippet_1_2.wav" ] /\
     s = Js.pos_zero /\ d = Js.lit_0_05) /\
  Js.geb (Renderer.winStart
            (snd (Renderer.computeDetailWindow (Js.of_Z 1) (Js.of_Z 2) state0)))
         Js.pos_zero = true.
Proof.
  split.
  - exists Js.pos_zero, Js.lit_0_05. repeat split; vm_compute; reflexivity.
  - destruct (make_snippet_clamps_request (H := ExampleHost.host))
      as [_ Hwin].
    destruct (Hwin (Js.of_Z 1) (Js.of_Z 2) state0) as (_ & _ & Hstart & _).
    apply Hstart. reflexivity.
Defined.

(** C8, as stated, fails for the detail window: a NaN [start] gives a NaN
    [winStart], which is not [>= 0]; and [computeDetailWindow(0.7, 0)]
    gives [winStart = 0.45], [winEnd = 0.5] and
    [winDur = 0.5 - 0.45 = 0.04999999999999999 < 0.05]. *)
Lemma detail_window_below_minimum :
  Js.geb (Renderer.winStart
            (snd (Renderer.computeDetailWindow Js.NaN (Js.of_Z 1) state0)))
         Js.pos_zero = false /\
  Js.geb (Renderer.winDur
            (snd (Renderer.computeDetailWindow lit_0_7 Js.pos_zero state0)))
         Js.lit_0_05 = false.
Proof. split; vm_compute; reflexivity. Qed.

(** ** The playhead word (C7) *)

Section ActiveWord.
Import Js Renderer.

Lemma scan_from_first (i : Z) (te : number) (ws : list TranscriptWord) :
  0 <= i ->
  (scan_from i te ws = -1 /\
   forall j w, ws !! j = Some w -> covers te w = false) \/
  (exists k w,
      scan_from i te ws = i + Z.of_nat k /\
      ws !! k = Some w /\ covers te w = true /\
      forall j w', (j < k)%nat -> ws !! j = Some w' -> covers te w' = false).
Proof.
  revert i. induction ws as [|w ws IH]; intros i Hi; simpl.
  - left. split; [reflexivity|]. intros j w Hj. discriminate.
  - destruct (covers te w) eqn:Hc.
    + right. exists 0%nat, w. repeat split.
      * lia.
      * exact Hc.
      * intros j w' Hj. lia.
    + destruct (IH (i + 1) ltac:(lia)) as [[Hn Hall]|(k & w' & Hk & Hl & Hcov & Hmin)].
      * left. split; [exact Hn|].
        intros [|j] w'' Hj; simpl in Hj.
        -- inversion Hj; subst; exact Hc.
        -- eapply Hall; exact Hj.
      * right. exists (S k), w'. repeat split.
        -- rewrite Hk. lia.
        -- exact Hl.
        -- exact Hcov.
        -- intros [|j] w'' Hj Hw; simpl in Hw.
           ++ inversion Hw; subst; exact Hc.
           ++ eapply Hmin; [|exact Hw]. lia.
Qed.

(** C7 (amended). For every playback time [t] and word list, the index
    the [timeupdate] handler passes to [setPlayheadIndex] is that of the
    first word, in order, with [start <= t + 0.01 < end], and -1 ("no
    word") when no span contains [t + 0.01]; the bias is the literal 0.01
    of the handler. *)
Theorem timeupdate_finds_first_word_at_10ms_bias
    (t : number) (words : list TranscriptWord) :
  sourceTimeToActiveWord t lit_0_01 words
    (index_result (timeupdate_index t words)) /\
  (index_result (timeupdate_index t words) = None ->
   timeupdate_index t words = -1).
Proof.
  unfold timeupdate_index, sourceTimeToActiveWord, index_result.
  destruct (scan_from_first 0 (add t lit_0_01) words ltac:(lia))
    as [[Hn Hall]|(k & w & Hk & Hl & Hcov & Hmin)].
  - rewrite Hn. simpl. split; [exact Hall|reflexivity].
  - rewrite Hk. replace (0 + Z.of_nat k <? 0) with false
      by (symmetry; apply Z.ltb_ge; lia).
    replace (Z.to_nat (0 + Z.of_nat k)) with k by lia.
    split; [|discriminate].
    split; [exists w; split; assumption | exact Hmin].
Qed.

End ActiveWord.

(** C7, as stated, fails: the handler does not read a configured bias.
    With the bias configured to 0, the lookup at [t = 0] over the single
    word [0.01, 1) must find no word, since [0 + 0 < 0.01]; the handler
    returns index 0, because it adds its own 0.01. *)
Lemma timeupdate_ignores_configured_bias :
  Renderer.timeupdate_index Js.pos_zero [word_at_10ms] = 0 /\
  ~ Renderer.sourceTimeToActiveWord Js.pos_zero Js.pos_zero [word_at_10ms]
      (Renderer.index_result
         (Renderer.timeupdate_index Js.pos_zero [word_at_10ms])).
Proof.
  split; [vm_compute; reflexivity|].
  replace (Renderer.index_result
             (Renderer.timeupdate_index Js.pos_zero [word_at_10ms]))
    with (Some 0%nat) by (vm_compute; reflexivity).
  intros [(w & Hw & Hc) _]. simpl in Hw. inversion Hw; subst w.
  vm_compute in Hc. discriminate.
Qed.

(** ** The selection range (C10) *)

Section Selection.
Import Renderer.

Lemma toggle_sets_class (name : string) (force : bool) (cl : list string) :
  existsb (String.eqb name) (classList_toggle name force cl) = force.
Proof.
  unfold classList_toggle. destruct force.
  - destruct (existsb (String.eqb name) cl) eqn:E; [exact E|].
    rewrite existsb_app. simpl. rewrite String.eqb_refl.
    rewrite E. reflexivity.
  - induction cl as [|c cl IH]; simpl; [reflexivity|].
    destruct (String.eqb name c) eqn:E; simpl; [exact IH|].
    rewrite E. exact IH.
Qed.

Lemma selected_after_set (start end' : option Z) (s : state) (el : word_el) :
  In el (nodes (setSelectionRange start end' s)) ->
  has_class "selected" el =
    inRange (selectionStart (setSelectionRange start end' s))
            (selectionEnd (setSelectionRange start end' s))
            (data_index el).
Proof.
  unfold setSelectionRange. cbn [nodes selectionStart selectionEnd].
  intros Hin. apply List.in_map_iff in Hin as (el0 & <- & _).
  unfold has_class. cbn [classList data_index].
  apply toggle_sets_class.
Qed.

(** C10. After [setSelectionRange(start, end)]: if an argument is null,
    [selectionStart], [selectionEnd] and [selectionAnchor] are all null
    and no word element is marked selected; for integer arguments,
    [selectionStart = min], [selectionEnd = max], so
    [selectionStart <= selectionEnd], and a word element is marked
    selected exactly when its index lies in
    [[selectionStart, selectionEnd]]. The elements keep their indices. *)
Theorem setSelectionRange_invariant (start end' : option Z) (s : state) :
  let s' := setSelectionRange start end' s in
  map data_index (nodes s') = map data_index (nodes s) /\
  ((selectionStart s' = None /\ selectionEnd s' = None /\
    selectionAnchor s' = None /\
    (start = None \/ end' = None) /\
    forall el, In el (nodes s') -> has_class "selected" el = false)
   \/
   (exists a b lo hi,
      start = Some a /\ end' = Some b /\
      lo = Z.min a b /\ hi = Z.max a b /\
      selectionStart s' = Some lo /\ selectionEnd s' = Some hi /\
      lo <= hi /\
      forall el, In el (nodes s') ->
        (has_class "selected" el = true <-> lo <= data_index el <= hi))).
Proof.
  intros s'. split.
  { subst s'. unfold setSelectionRange. cbn [nodes].
    rewrite List.map_map. cbn [data_index].
    destruct start, end'; reflexivity. }
  pose proof (selected_after_set start end' s) as Hsel. fold s' in Hsel.
  destruct start as [a|], end' as [b|].
  2-4: left; repeat split; auto;
       intros el Hin; rewrite (Hsel el Hin); reflexivity.
  right. exists a, b, (Z.min a b), (Z.max a b).
  assert (Hs : selectionStart s' = Some (Z.min a b) /\
               selectionEnd s' = Some (Z.max a b)).
  { subst s'. unfold setSelectionRange, normalizeRange.
    destruct (a <=? b) eqn:E; cbn;
      [apply Z.leb_le in E | apply Z.leb_gt in E];
      split; f_equal; lia. }
  destruct Hs as [Hlo Hhi].
  split; [reflexivity|]. split; [reflexivity|].
  split; [reflexivity|]. split; [reflexivity|].
  split; [exact Hlo|]. split; [exact Hhi|].
  split; [lia|].
  intros el Hin. rewrite (Hsel el Hin), Hlo, Hhi. simpl.
  rewrite andb_true_iff, Z.geb_le, Z.leb_le. reflexivity.
Qed.

End Selection.

(** ** read-spec-file (C9) *)

Section SpecFile.
Import Js NodePath Main.

Lemma take_until_slash_no_slash (l : list ascii) :
  ~ In slash (take_until_slash l).
Proof.
  induction l as [|c l IH]; simpl; [tauto|].
  destruct (Ascii.eqb c slash) eqn:E; simpl; [tauto|].
  intros [-> | Hin]; [|tauto].
  rewrite Ascii.eqb_refl in E. discriminate.
Qed.

Lemma basename_fixed_no_slash (p : string) :
  basename p = p -> ~ In slash (list_ascii_of_string p).
Proof.
  intros Hb. rewrite <- Hb. unfold basename.
  rewrite list_ascii_of_string_of_list_ascii.
  rewrite <- List.in_rev. apply take_until_slash_no_slash.
Qed.

Lemma segments_aux_no_slash (cur l : list ascii) :
  ~ In slash l ->
  segments_aux cur l = [string_of_list_ascii (rev cur ++ l)%list].
Proof.
  revert cur. induction l as [|c l IH]; intros cur Hn; simpl.
  - rewrite List.app_nil_r. reflexivity.
  - destruct (Ascii.eqb c slash) eqn:E.
    + apply Ascii.eqb_eq in E. subst c. exfalso. apply Hn. left. reflexivity.
    + rewrite IH by (intros Hin; apply Hn; right; exact Hin).
      simpl. rewrite <- List.app_assoc. reflexivity.
Qed.

Lemma segments_no_slash (p : string) :
  ~ In slash (list_ascii_of_string p) -> segments p = [p].
Proof.
  intros Hn. unfold segments. rewrite segments_aux_no_slash by exact Hn.
  simpl. rewrite string_of_list_ascii_of_string. reflexivity.
Qed.

Lemma join_single (dir : abs_path) (name : string) :
  ~ In slash (list_ascii_of_string name) ->
  join dir [name] = step_segment dir name.
Proof.
  intros Hn. unfold join. simpl. rewrite List.app_nil_r.
  rewrite segments_no_slash by exact Hn. reflexivity.
Qed.

Lemma resolve_app (root : node) (p q : abs_path) :
  resolve root (p ++ q)%list =
    match resolve root p with
    | Some n => resolve n q
    | None => None
    end.
Proof.
  revert root. induction p as [|c p IH]; intros root; simpl; [reflexivity|].
  destruct root as [content|es]; [reflexivity|].
  destruct (entry c es); [apply IH|reflexivity].
Qed.

Lemma resolve_removelast (root : node) (p : abs_path)
    (es : list (string * node)) :
  resolve root p = Some (Dir es) ->
  exists es', resolve root (removelast p) = Some (Dir es').
Proof.
  destruct p as [|c p'] eqn:Ep.
  - simpl. intros Hr. exists es. exact Hr.
  - rewrite <- Ep. intros Hr.
    assert (Hne : p <> []) by (rewrite Ep; discriminate).
    rewrite (app_removelast_last "" Hne) in Hr.
    rewrite resolve_app in Hr.
    destruct (resolve root (removelast p)) as [[content|es']|];
      simpl in Hr; try discriminate.
    exists es'. reflexivity.
Qed.

(** C9. A name that differs from its own basename (any name with a path
    component, such as "../x") makes read-spec-file throw "Invalid spec
    file name" before any file-system call. Consequently, when the
    sample_specs directory exists, whatever the handler returns is the
    content of a regular file that is a direct entry of that directory,
    under exactly the requested name, which holds no slash. *)
Theorem read_spec_file_stays_in_sample_specs
    (dirname : abs_path) (root : node) (name : string) :
  (basename name <> name ->
   read_spec_file dirname root name = ([], Rejected "Invalid spec file name"))
  /\
  (forall (es : list (string * node)) (text : string),
      resolve root (sample_specs dirname) = Some (Dir es) ->
      snd (read_spec_file dirname root name) = Resolved text ->
      basename name = name /\
      ~ In slash (list_ascii_of_string name) /\
      entry name es = Some (File text) /\
      fst (read_spec_file dirname root name) =
        [ OpExists (sample_specs dirname ++ [name])%list;
          OpRead (sample_specs dirname ++ [name])%list ]).
Proof.
  split.
  - intros Hne. unfold read_spec_file.
    apply String.eqb_neq in Hne. rewrite Hne. reflexivity.
  - intros es text Hdir. unfold read_spec_file.
    destruct (String.eqb (basename name) name) eqn:Eb; simpl;
      [|discriminate].
    apply String.eqb_eq in Eb.
    pose proof (basename_fixed_no_slash name Eb) as Hns.
    rewrite Eb. rewrite (join_single _ name Hns).
    set (dir := sample_specs dirname) in *.
    unfold step_segment.
    destruct (String.eqb name "") eqn:E1;
      [|destruct (String.eqb name ".") eqn:E2;
        [|destruct (String.eqb name "..") eqn:E3]].
    + unfold existsSync, readFileSync. rewrite Hdir. simpl. discriminate.
    + unfold existsSync, readFileSync. rewrite Hdir. simpl. discriminate.
    + destruct (resolve_removelast root dir es Hdir) as [es' Hp].
      unfold existsSync, readFileSync. rewrite Hp. simpl. discriminate.
    + unfold existsSync, readFileSync. rewrite resolve_app, Hdir. simpl.
      destruct (entry name es) as [[content|es']|] eqn:Ee; simpl;
        try discriminate.
      intros Hr. inversion Hr; subst content.
      repeat split; assumption.
Qed.

End SpecFile.

(** On the installation above: "../secret.txt" is refused before any
    file-system call, and what "default_spec.json" returns is the entry of
    that name in sample_specs. *)
Lemma read_spec_file_stays_in_sample_specs_example :
  Main.read_spec_file ["app"; "dist"] installed "../secret.txt"
    = ([], Js.Rejected "Invalid spec file name") /\
  Main.read_spec_file ["app"; "dist"] installed "default_spec.json"
    = ( [ NodePath.OpExists ["app"; "otter_py"; "sample_specs"; "default_spec.json"];
          NodePath.OpRead ["app"; "otter_py"; "sample_specs"; "default_spec.json"] ],
        Js.Resolved "{ steps: [] }" ) /\
  NodePath.entry "default_spec.json"
    [ ("default_spec.json", NodePath.File "{ steps: [] }") ]
    = Some (NodePath.File "{ steps: [] }").
Proof.
  split.
  - apply (read_spec_file_stays_in_sample_specs
             ["app"; "dist"] installed "../secret.txt").
    vm_compute. discriminate.
  - split; [vm_compute; reflexivity|].
    apply (read_spec_file_stays_in_sample_specs
             ["app"; "dist"] installed "default_spec.json").
    + vm_compute. reflexivity.
    + vm_compute. reflexivity.
Defined.

(** ** export-edl-audio (C1, C2, C4, C5) and load-edl (C5) *)

Section ExportFacts.
Import Js Main.
Context `{Host}.




End ExportFacts.

Section CodecFacts.
Import Js Main Codec.
Variable sample : Type.
Variable decode : list sample -> number -> number -> list sample.




End CodecFacts.

Section ExportClaims.
Import Js Main Codec.
Context `{Host}.
Variable sample : Type.
Variable decode : list sample -> number -> number -> list sample.



(** C4. Two exports of EDLs with identical entries hand the encoder the
    same trim ranges in the same order, and byte-identical
    [-filter_complex] strings, whatever the other fields of the EDLs, the
    destinations chosen and the way ffmpeg ends. *)
Theorem export_graph_deterministic
    (edl1 edl2 : Edl) (dialog1 dialog2 : SaveDialogResult)
    (ffmpeg1 ffmpeg2 : list string -> child_end) (g1 g2 : string) :
  entries edl1 = entries edl2 ->
  filter_graph_of (export_edl_audio (Parsed edl1) dialog1 ffmpeg1) = Some g1 ->
  filter_graph_of (export_edl_audio (Parsed edl2) dialog2 ffmpeg2) = Some g2 ->
  trims (non_muted edl1) = trims (non_muted edl2) /\
  g1 = filterComplex (trims (non_muted edl1)) /\
  g1 = g2.
Proof.
  intros He H1 H2.
  assert (Hn : non_muted edl1 = non_muted edl2)
    by (unfold non_muted; rewrite He; reflexivity).
  assert (Hg : forall edl dialog ffmpeg g,
             filter_graph_of (export_edl_audio (Parsed edl) dialog ffmpeg) = Some g ->
             g = filterComplex (trims (non_muted edl))).
  { intros edl dialog ffmpeg g. unfold filter_graph_of, export_edl_audio.
    destruct (non_muted edl) as [|e es]; [discriminate|].
    cbn [length Nat.eqb].
    destruct (save_canceled dialog || String.eqb (filePath dialog) "");
      [discriminate|].
    cbn. intros Hg. inversion Hg. reflexivity. }
  apply Hg in H1. apply Hg in H2.
  rewrite Hn in *. repeat split; congruence.
Qed.

End ExportClaims.

(** *** The export on concrete EDLs *)





(** Two exports that differ in everything but the entries. *)
Lemma export_graph_deterministic_example :
  Main.trims (Main.non_muted
     (edl_of 1 "/audio/talk.wav" [entry_0_2; entry_3_5_muted; entry_5_9] "a")) =
  Main.trims (Main.non_muted
     (edl_of 7 "/other/copy.wav" [entry_0_2; entry_3_5_muted; entry_5_9] "b")) /\
  "[0]atrim=start=0:end=2,asetpts=PTS-STARTPTS[a0]; [0]atrim=start=5:end=9,asetpts=PTS-STARTPTS[a1]; [a0][a1]concat=n=2:v=0:a=1[out]"
    = Main.filterComplex (H := ExampleHost.host)
        (Main.trims (Main.non_muted
           (edl_of 1 "/audio/talk.wav" [entry_0_2; entry_3_5_muted; entry_5_9] "a"))) /\
  "[0]atrim=start=0:end=2,asetpts=PTS-STARTPTS[a0]; [0]atrim=start=5:end=9,asetpts=PTS-STARTPTS[a1]; [a0][a1]concat=n=2:v=0:a=1[out]"
    = "[0]atrim=start=0:end=2,asetpts=PTS-STARTPTS[a0]; [0]atrim=start=5:end=9,asetpts=PTS-STARTPTS[a1]; [a0][a1]concat=n=2:v=0:a=1[out]".
Proof.
  apply (export_graph_deterministic (H := ExampleHost.host)
           (edl_of 1 "/audio/talk.wav" [entry_0_2; entry_3_5_muted; entry_5_9] "a")
           (edl_of 7 "/other/copy.wav" [entry_0_2; entry_3_5_muted; entry_5_9] "b")
           (save_to "/out/one.wav") (save_to "/out/two.wav")
           ffmpeg_ok ffmpeg_fails).
  - reflexivity.
  - vm_compute. reflexivity.
  - vm_compute. reflexivity.
Defined.

(** ** Loading an EDL (C5) *)

Section LoadFacts.
Import Js Main.
Context `{Host}.

(** C5 (amended). load-edl returns [null] when the dialog is cancelled or
    gives no path; otherwise it reads the first chosen file and returns
    its path with the raw text, whatever the text is: it neither parses it
    nor checks a schema version or the integrity of what it holds, which
    is left to the consumer. export-edl-audio throws when [JSON.parse]
    does, before anything is spawned, and otherwise reads [entries] and
    [sourceFile] only: its result does not depend on [version]. *)
Theorem load_edl_returns_raw_text
    (result : OpenDialogResult) (readFile : string -> string + string) :
  (open_canceled result = true \/ filePaths result = [] ->
   load_edl result readFile = ([], Resolved None))
  /\
  (forall p rest text,
     open_canceled result = false -> filePaths result = p :: rest ->
     readFile p = inl text ->
     load_edl result readFile =
       ([p], Resolved (Some {| path := p; content := text |})))
  /\
  (forall p rest err,
     open_canceled result = false -> filePaths result = p :: rest ->
     readFile p = inr err ->
     load_edl result readFile = ([p], Rejected err))
  /\
  (forall message dialog ffmpeg,
     export_edl_audio (ParseThrew message) dialog ffmpeg =
       ([], Rejected message))
  /\
  (forall (v : Z) (edl : Edl) dialog ffmpeg,
     export_edl_audio (Parsed (with_version v edl)) dialog ffmpeg =
     export_edl_audio (Parsed edl) dialog ffmpeg).
Proof.
  repeat split.
  - intros [Hc|Hp]; unfold load_edl.
    + rewrite Hc. reflexivity.
    + rewrite Hp. rewrite orb_true_r. reflexivity.
  - intros p rest text Hc Hp Hr. unfold load_edl.
    rewrite Hc, Hp. simpl. rewrite Hr. reflexivity.
  - intros p rest err Hc Hp Hr. unfold load_edl.
    rewrite Hc, Hp. simpl. rewrite Hr. reflexivity.
Qed.

End LoadFacts.

(** Loading the one file of the disk returns its text untouched; a
    cancelled dialog returns [null]. *)
Lemma load_edl_returns_raw_text_example :
  Main.load_edl (opened "/projects/bad.json") disk_with_v99
    = ( ["/projects/bad.json"],
        Js.Resolved
          (Some {| Main.path := "/projects/bad.json";
                   Main.content := "{ version: 99, order: [w9], wordsById: {} }" |}) )
  /\
  Main.load_edl
    {| Main.open_canceled := true; Main.filePaths := [] |} disk_with_v99
    = ([], Js.Resolved None).
Proof.
  destruct (load_edl_returns_raw_text (H := ExampleHost.host)
              (opened "/projects/bad.json") disk_with_v99)
    as (_ & Hload & _).
  split.
  - apply (Hload "/projects/bad.json" []
                 "{ version: 99, order: [w9], wordsById: {} }");
      reflexivity.
  - destruct (load_edl_returns_raw_text (H := ExampleHost.host)
                {| Main.open_canceled := true; Main.filePaths := [] |}
                disk_with_v99) as (Hnull & _).
    apply Hnull. left. reflexivity.
Defined.

(** C5, as stated, fails: no handler checks the schema version. load-edl
    hands back a file that declares version 99 as it is, and
    export-edl-audio runs an EDL of version 99 like any other. *)
Lemma unsupported_version_is_not_rejected :
  Main.load_edl (opened "/projects/bad.json") disk_with_v99
  = ( ["/projects/bad.json"],
      Js.Resolved
        (Some {| Main.path := "/projects/bad.json";
                 Main.content := "{ version: 99, order: [w9], wordsById: {} }" |}) )
  /\
  snd (Main.export_edl_audio (H := ExampleHost.host)
         (Main.Parsed (edl_of 99 "/audio/talk.wav" [entry_0_2] "2026-01-02T00:00:00Z"))
         (save_to "/out/export.wav") ffmpeg_ok)
  = Js.Resolved (Some "/out/export.wav").
Proof. split; vm_compute; reflexivity. Qed.

(** ** Cancelling a transcription (C6) *)

Section CancelFacts.
Import Js MainCancel.
Context `{Host}.


End CancelFacts.



(** ** Undo after apply (C3) *)

Section EngineFacts.
Import Engine.























(** Induction over commands, through the lists of [Composite]. *)
Section CommandInduction.
Variable P : Command -> Prop.
Hypothesis P_delete : forall s ids, P (DeleteWords s ids).
Hypothesis P_insert : forall i ids new, P (InsertWords i ids new).
Hypothesis P_move : forall f n t ids, P (MoveRange f n t ids).
Hypothesis P_span : forall c ns, P (UpdateWordSpan c ns).
Hypothesis P_text : forall k b a, P (UpdateWordText k b a).
Hypothesis P_composite : forall cs, Forall P cs -> P (Composite cs).


End CommandInduction.





End EngineFacts.


(** ** read-spec-file, list-spec-files and transcribe-audio *)

Section SpecFileMore.
Import Js NodePath Main MainMore.

Lemma drop_slashes_no_slash (l : list ascii) :
  ~ In slash l -> drop_slashes l = l.
Proof.
  destruct l as [|c l]; simpl; [reflexivity|]. intros Hn.
  destruct (Ascii.eqb c slash) eqn:E; [|reflexivity].
  apply Ascii.eqb_eq in E. subst c. exfalso. apply Hn. left. reflexivity.
Qed.

Lemma take_until_slash_all (l : list ascii) :
  ~ In slash l -> take_until_slash l = l.
Proof.
  induction l as [|c l IH]; simpl; [reflexivity|]. intros Hn.
  destruct (Ascii.eqb c slash) eqn:E.
  - apply Ascii.eqb_eq in E. subst c. exfalso. apply Hn. left. reflexivity.
  - rewrite IH; [reflexivity|]. intros Hin. apply Hn. right. exact Hin.
Qed.

Lemma basename_no_slash (p : string) :
  ~ In slash (list_ascii_of_string p) -> basename p = p.
Proof.
  intros Hn. unfold basename.
  assert (Hr : ~ In slash (rev (list_ascii_of_string p)))
    by (rewrite <- List.in_rev; exact Hn).
  rewrite (drop_slashes_no_slash _ Hr), (take_until_slash_all _ Hr).
  rewrite List.rev_involutive. apply string_of_list_ascii_of_string.
Qed.

Lemma read_spec_file_refuses_a_slash
    (dirname : abs_path) (root : node) (name : string) :
  In slash (list_ascii_of_string name) ->
  read_spec_file dirname root name = ([], Rejected "Invalid spec file name").
Proof.
  intros Hin. unfold read_spec_file.
  assert (Hne : basename name <> name)
    by (intros Hb; apply (basename_fixed_no_slash name Hb); exact Hin).
  apply String.eqb_neq in Hne. rewrite Hne. reflexivity.
Qed.

(** X1. read-spec-file answers "Invalid spec file name", before any
    file-system call, exactly for the names that hold a slash. *)
Theorem read_spec_file_refuses_exactly_the_slashes
    (dirname : abs_path) (root : node) (name : string) :
  In slash (list_ascii_of_string name) <->
  read_spec_file dirname root name = ([], Rejected "Invalid spec file name").
Proof.
  split.
  - apply read_spec_file_refuses_a_slash.
  - intros Hr.
    destruct (in_dec ascii_dec slash (list_ascii_of_string name)) as [Hin|Hn];
      [exact Hin|].
    exfalso. unfold read_spec_file in Hr.
    rewrite (basename_no_slash name Hn), String.eqb_refl in Hr. cbn in Hr.
    destruct (existsSync root _); cbn in Hr; discriminate.
Qed.


(** X2. For a name without a slash, read-spec-file looks at one path: the
    sample_specs directory itself for "" and ".", its parent for "..",
    the entry of that name otherwise. When nothing is there it answers
    "Spec file not found" after [existsSync] alone, without a read; when a
    directory is there (so always for "", "." and ".." once sample_specs
    exists) the read fails with EISDIR; when a regular file is there it
    returns the content. *)
Theorem read_spec_file_outcomes
    (dirname : abs_path) (root : node) (name : string) :
  ~ In slash (list_ascii_of_string name) ->
  let p := step_segment (sample_specs dirname) name in
  (name = "" \/ name = "." -> p = sample_specs dirname) /\
  (name = ".." -> p = removelast (sample_specs dirname)) /\
  (name <> "" -> name <> "." -> name <> ".." ->
   p = (sample_specs dirname ++ [name])%list) /\
  (resolve root p = None ->
   read_spec_file dirname root name =
     ([OpExists p], Rejected ("Spec file not found: " ++ name))) /\
  (forall es, resolve root p = Some (Dir es) ->
   read_spec_file dirname root name =
     ([OpExists p; OpRead p],
      Rejected "EISDIR: illegal operation on a directory, read")) /\
  (forall content, resolve root p = Some (File content) ->
   read_spec_file dirname root name =
     ([OpExists p; OpRead p], Resolved content)).
Proof.
  intros Hn p.
  assert (Hread : forall r, resolve root p = r ->
            read_spec_file dirname root name =
              match r with
              | None => ([OpExists p], Rejected ("Spec file not found: " ++ name))
              | Some (File c) => ([OpExists p; OpRead p], Resolved c)
              | Some (Dir _) =>
                  ([OpExists p; OpRead p],
                   Rejected "EISDIR: illegal operation on a directory, read")
              end).
  { intros r Hr. unfold read_spec_file.
    rewrite (basename_no_slash name Hn), String.eqb_refl. cbn [negb].
    rewrite (join_single _ name Hn). fold p.
    unfold existsSync, readFileSync. rewrite Hr.
    destruct r as [[c|es]|]; reflexivity. }
  split; [intros [->| ->]; reflexivity|].
  split; [intros ->; reflexivity|].
  split.
  { intros H1 H2 H3. subst p. unfold step_segment.
    apply String.eqb_neq in H1, H2, H3. rewrite H1, H2, H3. reflexivity. }
  split; [intros Hr; apply (Hread _ Hr)|].
  split; [intros es Hr; apply (Hread _ Hr)|].
  intros c Hr. apply (Hread _ Hr).
Qed.

Lemma join_app (base : abs_path) (a b : list string) :
  join base (a ++ b)%list = join (join base a) b.
Proof.
  unfold join. rewrite List.flat_map_app, List.fold_left_app. reflexivity.
Qed.

Lemma specPath_is_read_path (dirname : abs_path) (name : string) :
  specPath dirname name = join (sample_specs dirname) [name].
Proof.
  unfold specPath, sample_specs.
  apply (join_app (repoRoot dirname) ["otter_py"; "sample_specs"] [name]).
Qed.

(** X3. The spec a user previews is the spec that runs: whenever
    read-spec-file returns a text for a name, transcribe-audio with
    [{mode: "file", name}] passes [--spec-file] with the path of the very
    file that text was read from, after [--audio audioPath]. *)
Theorem transcribe_runs_the_spec_that_was_read
    (dirname : abs_path) (root : node) (name content audioPath : string) :
  snd (read_spec_file dirname root name) = Resolved content ->
  resolve root (specPath dirname name) = Some (File content) /\
  transcribe_argv dirname audioPath (Some (SpecFile name)) =
    [ "-m"; "otter_py.transcribe"; "run"; "--audio"; audioPath;
      "--spec-file"; path_string (specPath dirname name) ].
Proof.
  intros Hr. split; [|reflexivity].
  rewrite specPath_is_read_path. unfold read_spec_file in Hr.
  destruct (String.eqb (basename name) name) eqn:Eb; cbn [negb snd] in Hr;
    [|discriminate Hr].
  apply String.eqb_eq in Eb. rewrite Eb in Hr.
  destruct (existsSync root (join (sample_specs dirname) [name]));
    cbn [negb snd] in Hr; [|discriminate Hr].
  unfold readFileSync in Hr.
  destruct (resolve root (join (sample_specs dirname) [name]))
    as [[c|es]|]; try discriminate Hr.
  inversion Hr. reflexivity.
Qed.

Lemma segments_parent_then (x : string) :
  ~ In slash (list_ascii_of_string x) ->
  segments ("../" ++ x) = [".."; x].
Proof.
  intros Hn. unfold segments.
  change (list_ascii_of_string ("../" ++ x))
    with ("."%char :: "."%char :: "/"%char :: list_ascii_of_string x).
  change (segments_aux [] ("."%char :: "."%char :: "/"%char :: list_ascii_of_string x))
    with (".." :: segments_aux [] (list_ascii_of_string x)).
  rewrite segments_aux_no_slash by exact Hn.
  change (rev [] ++ list_ascii_of_string x)%list with (list_ascii_of_string x).
  rewrite string_of_list_ascii_of_string. reflexivity.
Qed.

(** X4. transcribe-audio does not check the name it is given: for every
    plain file name [x], the name "../x", which read-spec-file refuses,
    makes [--spec-file] point at [x] beside sample_specs, in otter_py. *)
Theorem transcribe_accepts_names_outside_sample_specs
    (dirname : abs_path) (root : node) (x audioPath : string) :
  plain_name x ->
  specPath dirname ("../" ++ x) = (repoRoot dirname ++ ["otter_py"; x])%list /\
  transcribe_argv dirname audioPath (Some (SpecFile ("../" ++ x))) =
    [ "-m"; "otter_py.transcribe"; "run"; "--audio"; audioPath;
      "--spec-file";
      path_string (repoRoot dirname ++ ["otter_py"; x])%list ] /\
  read_spec_file dirname root ("../" ++ x) =
    ([], Rejected "Invalid spec file name").
Proof.
  intros (Hn & H1 & H2 & H3).
  assert (Hp : specPath dirname ("../" ++ x)
               = (repoRoot dirname ++ ["otter_py"; x])%list).
  { unfold specPath, join. cbn [flat_map].
    rewrite (segments_parent_then x Hn).
    replace (segments "otter_py") with ["otter_py"] by reflexivity.
    replace (segments "sample_specs") with ["sample_specs"] by reflexivity.
    cbn [List.app fold_left].
    replace (step_segment (repoRoot dirname) "otter_py")
      with (repoRoot dirname ++ ["otter_py"])%list by reflexivity.
    replace (step_segment (repoRoot dirname ++ ["otter_py"])%list "sample_specs")
      with ((repoRoot dirname ++ ["otter_py"]) ++ ["sample_specs"])%list
      by reflexivity.
    replace (step_segment ((repoRoot dirname ++ ["otter_py"]) ++ ["sample_specs"])%list "..")
      with (removelast ((repoRoot dirname ++ ["otter_py"]) ++ ["sample_specs"])%list)
      by reflexivity.
    rewrite List.removelast_last. unfold step_segment.
    apply String.eqb_neq in H1, H2, H3. rewrite H1, H2, H3.
    rewrite <- List.app_assoc. reflexivity. }
  split; [exact Hp|]. split.
  - unfold transcribe_argv. rewrite Hp. reflexivity.
  - apply read_spec_file_refuses_a_slash.
    cbn. right. right. left. reflexivity.
Qed.

End SpecFileMore.

Section ListSpecFiles.
Import Js NodePath Main MainMore.
Context `{Locale}.

Lemma insert_by_locale_perm (x : string) (l : list string) :
  insert_by_locale x l ≡ₚ x :: l.
Proof.
  induction l as [|y l IH]; cbn; [reflexivity|].
  destruct (localeCompare x y <? 0); [reflexivity|].
  rewrite IH. apply Permutation_swap.
Qed.

Lemma sort_by_locale_perm (l : list string) : sort_by_locale l ≡ₚ l.
Proof.
  unfold sort_by_locale.
  assert (Hg : forall acc, fold_left (fun sorted x => insert_by_locale x sorted) l acc
                           ≡ₚ (acc ++ l)%list).
  { induction l as [|x l IH]; intros acc; cbn.
    - rewrite List.app_nil_r. reflexivity.
    - rewrite IH, insert_by_locale_perm.
      change (x :: acc ++ l)%list with ((x :: acc) ++ l)%list.
      rewrite (Permutation_middle acc l x). reflexivity. }
  apply (Hg []).
Qed.

Lemma entry_of_In (es : list (string * node)) (n : string) (x : node) :
  NoDup (map fst es) -> In (n, x) es -> entry n es = Some x.
Proof.
  induction es as [|[m y] es IH]; cbn; [tauto|].
  intros Hnd [Heq|Hin].
  - inversion Heq; subst. rewrite String.eqb_refl. reflexivity.
  - apply NoDup_cons in Hnd as [Hm Hnd].
    destruct (String.eqb m n) eqn:E.
    + apply String.eqb_eq in E. subst m. exfalso. apply Hm.
      apply list_elem_of_In. apply (List.in_map fst _ _ Hin).
    + apply IH; assumption.
Qed.

(** X5. Every name list-spec-files returns can be read back: the list is a
    rearrangement of the names of the regular files of sample_specs whose
    lower-cased name ends in ".json" (no directory is listed), and for
    each listed name read-spec-file returns the content of that file. *)
Theorem listed_spec_files_can_be_read
    (dirname : abs_path) (root : node) (es : list (string * node))
    (names : list string) :
  resolve root (sample_specs dirname) = Some (Dir es) ->
  NoDup (map fst es) ->
  Forall plain_name (map fst es) ->
  list_spec_files dirname root = Resolved names ->
  names ≡ₚ map fst (List.filter is_spec_file es) /\
  forall name, In name names ->
    endsWith (toLowerCase name) ".json" = true /\
    exists content,
      In (name, File content) es /\
      read_spec_file dirname root name =
        ( [ OpExists (sample_specs dirname ++ [name])%list;
            OpRead (sample_specs dirname ++ [name])%list ],
          Resolved content ).
Proof.
  intros Hdir Hnd Hplain Hl. unfold list_spec_files in Hl. rewrite Hdir in Hl.
  inversion Hl; subst names. clear Hl.
  split; [apply sort_by_locale_perm|].
  intros name Hin.
  apply list_elem_of_In in Hin. rewrite sort_by_locale_perm in Hin.
  apply list_elem_of_In in Hin.
  apply List.in_map_iff in Hin as ([n x] & Hn & Hin). cbn in Hn. subst n.
  apply List.filter_In in Hin as [Hin Hspec].
  unfold is_spec_file in Hspec. cbn [fst snd] in Hspec.
  destruct x as [content|sub]; [|discriminate].
  split; [exact Hspec|]. exists content. split; [exact Hin|].
  assert (Hpl : plain_name name).
  { rewrite Forall_forall in Hplain. apply Hplain.
    apply list_elem_of_In. apply (List.in_map fst _ _ Hin). }
  destruct Hpl as (Hns & H1 & H2 & H3).
  unfold read_spec_file.
  rewrite (basename_no_slash name Hns), String.eqb_refl. cbn [negb].
  rewrite (join_single _ name Hns). unfold step_segment.
  apply String.eqb_neq in H1, H2, H3. rewrite H1, H2, H3.
  unfold existsSync, readFileSync. rewrite resolve_app, Hdir. cbn [resolve].
  rewrite (entry_of_In es name (File content) Hnd Hin). reflexivity.
Qed.

End ListSpecFiles.

(** ** The child's stderr: progress and log lines *)

Section Stderr.
Import JsText MainMore.

Lemma is_digit_range (c : N) :
  is_digit c = true -> 0 <= Z.of_N c - 48 <= 9.
Proof.
  unfold is_digit. intros Hd. apply andb_prop in Hd as [H1 H2].
  apply N.leb_le in H1, H2. lia.
Qed.

Lemma leading_digits_value (s : text) :
  0 <= digits_value (leading_digits 3 s) <= 999.
Proof.
  unfold digits_value.
  destruct s as [|a s]; cbn; [lia|].
  destruct (is_digit a) eqn:Ha; cbn; [|lia].
  apply is_digit_range in Ha.
  destruct s as [|b s]; cbn; [lia|].
  destruct (is_digit b) eqn:Hb; cbn; [|lia].
  apply is_digit_range in Hb.
  destruct s as [|c s]; cbn; [lia|].
  destruct (is_digit c) eqn:Hc; cbn; [|lia].
  apply is_digit_range in Hc. lia.
Qed.

Lemma split_lines_from_no_feed (cur s line : text) :
  ~ In 10%N cur -> In line (split_lines_from cur s) -> ~ In 10%N line.
Proof.
  revert cur. induction s as [s IH] using (induction_ltof1 _ (@length N)).
  unfold ltof in IH. intros cur Hcur.
  destruct s as [|c s]; cbn [split_lines_from].
  - intros [<-|[]]. rewrite <- List.in_rev. exact Hcur.
  - destruct (N.eqb c 10) eqn:E10.
    + intros [<-|Hin]; [rewrite <- List.in_rev; exact Hcur|].
      apply (IH s ltac:(cbn; lia) [] ltac:(cbn; tauto) Hin).
    + assert (Hcur' : ~ In 10%N (c :: cur)).
      { apply N.eqb_neq in E10. intros [Hc|Hc]; [congruence|tauto]. }
      destruct (N.eqb c 13); [|apply (IH s ltac:(cbn; lia) _ Hcur')].
      destruct s as [|d s]; [apply (IH [] ltac:(cbn; lia) _ Hcur')|].
      destruct (N.eqb d 10).
      * intros [<-|Hin]; [rewrite <- List.in_rev; exact Hcur|].
        apply (IH s ltac:(cbn; lia) [] ltac:(cbn; tauto) Hin).
      * apply (IH (d :: s) ltac:(cbn; lia) _ Hcur').
Qed.

Lemma split_lines_from_chars (cur s line : text) (x : N) :
  In line (split_lines_from cur s) -> In x line -> In x cur \/ In x s.
Proof.
  revert cur. induction s as [s IH] using (induction_ltof1 _ (@length N)).
  unfold ltof in IH. intros cur.
  destruct s as [|c s]; cbn [split_lines_from].
  - intros [<-|[]] Hx. left. apply List.in_rev. exact Hx.
  - destruct (N.eqb c 10).
    + intros [<-|Hin] Hx; [left; apply List.in_rev; exact Hx|].
      destruct (IH s ltac:(cbn; lia) [] Hin Hx) as [[]|Hs].
      right. right. exact Hs.
    + assert (Hstep : forall s', (length s' < length (c :: s))%nat ->
                (forall y, In y s' -> In y (c :: s)) ->
                In line (split_lines_from (c :: cur) s') ->
                In x line -> In x cur \/ In x (c :: s)).
      { intros s' Hlen Hsub Hin Hx.
        destruct (IH s' Hlen (c :: cur) Hin Hx) as [[<-|Hc]|Hs].
        - right. left. reflexivity.
        - left. exact Hc.
        - right. apply Hsub. exact Hs. }
      destruct (N.eqb c 13);
        [|apply (Hstep s ltac:(cbn; lia)); intros y Hy; right; exact Hy].
      destruct s as [|d s];
        [apply (Hstep [] ltac:(cbn; lia)); intros y []|].
      destruct (N.eqb d 10).
      * intros [<-|Hin] Hx; [left; apply List.in_rev; exact Hx|].
        destruct (IH s ltac:(cbn; lia) [] Hin Hx) as [[]|Hs].
        right. right. right. exact Hs.
      * apply (Hstep (d :: s) ltac:(cbn; lia)). intros y Hy. right. exact Hy.
Qed.

(** X6. Whatever a chunk of stderr holds, every progress value sent to the
    renderer lies between 0 and 999, and every log message is one line of
    the chunk that is not blank, followed by a line feed, with no line
    feed inside; a chunk of white space alone sends nothing. *)
Theorem stderr_messages_are_well_formed (chunk : text) :
  Forall (fun m =>
            match m with
            | TranscribeProgress pct => 0 <= pct <= 999
            | TranscribeLog l =>
                exists line,
                  l = (line ++ [10%N])%list /\
                  In line (split_lines chunk) /\
                  trim_truthy line = true /\
                  ~ In 10%N line
            end)
         (on_stderr chunk) /\
  (forallb is_space chunk = true -> on_stderr chunk = []).
Proof.
  split.
  - apply Forall_forall. intros m Hm. apply list_elem_of_In in Hm.
    unfold on_stderr in Hm. apply List.in_flat_map in Hm as (line & Hl & Hm).
    unfold on_line in Hm. destruct (match_progress line) as [ds|] eqn:Hp.
    + destruct Hm as [<-|[]]. unfold match_progress in Hp.
      destruct (strip_prefix (lit "PROGRESS:") line) as [rest|]; [|discriminate].
      destruct ((1 <=? length (leading_digits 3 rest))%nat && _);
        [|discriminate].
      inversion Hp; subst ds. apply leading_digits_value.
    + destruct (trim_truthy line) eqn:Ht; [|destruct Hm].
      destruct Hm as [<-|[]]. exists line.
      split; [reflexivity|]. split; [exact Hl|]. split; [exact Ht|].
      apply (split_lines_from_no_feed [] chunk line); [cbn; tauto|exact Hl].
  - intros Hs. unfold on_stderr.
    assert (Hall : forall line, In line (split_lines chunk) -> on_line line = []).
    { intros line Hl.
      assert (Hsp : forallb is_space line = true).
      { apply List.forallb_forall. intros x Hx.
        destruct (split_lines_from_chars [] chunk line x Hl Hx) as [[]|Hc].
        rewrite List.forallb_forall in Hs. apply Hs. exact Hc. }
      unfold on_line, match_progress.
      replace (strip_prefix (lit "PROGRESS:") line) with (@None text).
      2: { replace (lit "PROGRESS:")
             with [80; 82; 79; 71; 82; 69; 83; 83; 58]%N
             by (vm_compute; reflexivity).
           destruct line as [|c line]; [reflexivity|].
           cbn [forallb] in Hsp. apply andb_prop in Hsp as [Hc _].
           cbn [strip_prefix]. destruct (N.eqb 80 c) eqn:E; [|reflexivity].
           apply N.eqb_eq in E. subst c. discriminate. }
      replace (trim_truthy line) with false; [reflexivity|].
      symmetry. unfold trim_truthy. apply not_true_is_false. intros Ht.
      apply List.existsb_exists in Ht as (x & Hx & Hnx).
      rewrite List.forallb_forall in Hsp. rewrite (Hsp x Hx) in Hnx.
      discriminate. }
    induction (split_lines chunk) as [|l ls IH]; cbn; [reflexivity|].
    rewrite (Hall l (or_introl eq_refl)). cbn.
    apply IH. intros line Hl. apply Hall. right. exact Hl.
Qed.

End Stderr.

(** ** save-edl and load-edl *)

Section SaveLoad.
Import Js Main MainMore.


End SaveLoad.

(** ** export-edl-audio: what does not matter, and when it reports a file *)

Section ExportMore.
Import Js Main.
Context `{Host}.

(** X8. Muting an entry is, for the export, deleting it; ids and labels do
    not matter either. Two EDLs with the same source whose non-muted
    entries have the same source ranges, in the same order, export alike:
    the same child with the same arguments and the same result. *)
Theorem export_depends_on_non_muted_ranges_only
    (edl1 edl2 : Edl) (dialog : SaveDialogResult)
    (ffmpeg : list string -> child_end) :
  sourceFile edl1 = sourceFile edl2 ->
  trims (non_muted edl1) = trims (non_muted edl2) ->
  export_edl_audio (Parsed edl1) dialog ffmpeg =
  export_edl_audio (Parsed edl2) dialog ffmpeg.
Proof.
  intros Hs Ht. unfold export_edl_audio. rewrite Hs, Ht.
  assert (Hl : length (non_muted edl1) = length (non_muted edl2)).
  { rewrite <- (List.length_map trim_of (non_muted edl1)).
    rewrite <- (List.length_map trim_of (non_muted edl2)).
    fold (trims (non_muted edl1)). fold (trims (non_muted edl2)).
    rewrite Ht. reflexivity. }
  rewrite Hl. reflexivity.
Qed.

(** X9. The export reports a file only after ffmpeg exited with code 0, and
    then it is the file chosen in the dialog; it answers [null] only for
    a cancelled dialog, having spawned nothing; and it never spawns more
    than one child. *)
Theorem export_reports_a_file_only_after_success
    (parsed : parse_result) (dialog : SaveDialogResult)
    (ffmpeg : list string -> child_end) :
  let run := export_edl_audio parsed dialog ffmpeg in
  (forall p, snd run = Resolved (Some p) ->
     p = filePath dialog /\ p <> "" /\ save_canceled dialog = false /\
     exists edl err,
       parsed = Parsed edl /\
       fst run = [ {| command := "ffmpeg";
                      argv := export_args (sourceFile edl)
                                (trims (non_muted edl)) p |} ] /\
       ffmpeg (export_args (sourceFile edl) (trims (non_muted edl)) p)
         = Closed (Some 0) err)
  /\
  (snd run = Resolved None ->
     fst run = [] /\
     (save_canceled dialog = true \/ filePath dialog = ""))
  /\
  (length (fst run) <= 1)%nat.
Proof.
  intros run. subst run. unfold export_edl_audio.
  destruct parsed as [message|edl].
  { cbn. repeat split; try discriminate; lia. }
  destruct (length (non_muted edl) =? 0)%nat.
  { cbn. repeat split; try discriminate; lia. }
  destruct (save_canceled dialog) eqn:Hc; cbn [orb].
  { cbn. split; [discriminate|]. split; [auto|lia]. }
  destruct (String.eqb (filePath dialog) "") eqn:Hp.
  { apply String.eqb_eq in Hp. cbn. split; [discriminate|].
    split; [auto|lia]. }
  apply String.eqb_neq in Hp. cbn [fst snd length].
  split; [|split; [|lia]].
  - intros p Hr.
    destruct (ffmpeg _) as [[[|c|c]|] err|m] eqn:Hf; try discriminate Hr.
    inversion Hr; subst p.
    split; [reflexivity|]. split; [exact Hp|]. split; [reflexivity|].
    exists edl, err. auto.
  - intros Hr.
    destruct (ffmpeg _) as [[[|c|c]|] err|m]; discriminate Hr.
Qed.

End ExportMore.

(** ** make-snippet: the clamp on a valid request *)

Section SnippetMore.
Import Js Main Renderer.
Context `{Host}.

Lemma compare_eq_finite (s : bool) (m : positive) (e : Z) (y : number) :
  SFcompare (S754_finite s m e) y = Some Eq -> y = S754_finite s m e.
Proof.
  destruct y as [sy|sy| |sy my ey]; cbn.
  - destruct s; discriminate.
  - destruct s, sy; discriminate.
  - discriminate.
  - destruct s, sy; try discriminate;
      destruct (Z.compare e ey) eqn:Ez; try discriminate;
      apply Z.compare_eq in Ez; subst ey; intros Hc;
      inversion Hc as [Hm]; clear Hc.
    + destruct (Pos.compare_cont Eq m my) eqn:Em; try discriminate.
      apply Pos.compare_eq in Em. subst. reflexivity.
    + apply Pos.compare_eq in Hm. subst. reflexivity.
Qed.

Lemma safeStart_identity (s : number) :
  geb s pos_zero = true -> is_neg_zero s = false ->
  safeStart (VPrim (PNumber s)) = s.
Proof.
  unfold geb, SFleb, safeStart, Number, ToNumber_prim.
  destruct s as [[]|[]| |[] m e]; cbn; try discriminate; reflexivity.
Qed.

Lemma safeDur_identity (d : number) :
  geb d lit_0_05 = true -> safeDur (VPrim (PNumber d)) = d.
Proof.
  unfold geb, SFleb, safeDur, Number, ToNumber_prim. intros Hg.
  destruct (SFcompare lit_0_05 d) as [[]|] eqn:Hc; try discriminate.
  - apply compare_eq_finite in Hc. subst d. reflexivity.
  - assert (Hlt : ltb lit_0_05 d = true)
      by (unfold ltb, SFltb; rewrite Hc; reflexivity).
    assert (Hn : isNaN d = false) by (destruct d; cbn in *; congruence).
    assert (Ht : truthy d = true) by (destruct d; cbn in *; congruence).
    unfold or_else. rewrite Ht.
    rewrite Math_max_pair; [|reflexivity|exact Hn].
    unfold max_step. rewrite Hlt.
    destruct d; cbn in *; try discriminate; reflexivity.
Qed.

(** X10. The clamp of make-snippet changes nothing in a valid request: a
    numeric start that is [>= 0] (and not the negative zero) and a
    numeric duration that is [>= 0.05] reach ffmpeg as they are. *)
Theorem make_snippet_keeps_a_valid_request
    (audioPath outPath : string) (s d : number) :
  geb s pos_zero = true -> is_neg_zero s = false ->
  geb d lit_0_05 = true ->
  snippet_args audioPath (VPrim (PNumber s)) (VPrim (PNumber d)) outPath =
    [ "-hide_banner"; "-y";
      "-ss"; NumberToString s;
      "-t"; NumberToString d;
      "-i"; audioPath; "-c:a"; "pcm_s16le"; outPath ].
Proof.
  intros Hs Hz Hd. unfold snippet_args.
  rewrite (safeStart_identity s Hs Hz), (safeDur_identity d Hd). reflexivity.
Qed.

Lemma max_step_zero_shape (y : number) :
  isNaN y = false ->
  max_step pos_zero y = pos_zero \/
  (max_step pos_zero y = y /\ ltb pos_zero y = true).
Proof.
  intros Hy. unfold max_step.
  replace (is_pos_zero y && is_neg_zero pos_zero) with false
    by (destruct (is_pos_zero y); reflexivity).
  destruct (ltb pos_zero y) eqn:E; auto.
Qed.

(** X11. The detail view and ffmpeg agree on where the snippet starts: for a
    range whose start is not NaN, the [winStart] that the renderer keeps
    in [detailWinStartAbs] is the very number make-snippet passes after
    [-ss] when it is sent that [winStart]. *)
Theorem detail_window_start_is_the_snippet_start
    (start' end' : number) (st : state) :
  isNaN start' = false ->
  let r := computeDetailWindow start' end' st in
  safeStart (VPrim (PNumber (winStart (snd r)))) = detailWinStartAbs (fst r).
Proof.
  intros Hs r. subst r. unfold computeDetailWindow.
  cbn [fst snd winStart detailWinStartAbs].
  assert (Hy : isNaN (sub start' DETAIL_PAD_BEFORE) = false)
    by (apply sub_finite_not_nan; exact Hs).
  rewrite (Math_max_pair pos_zero _ eq_refl Hy).
  destruct (max_step_zero_shape _ Hy) as [->|[-> Hlt]].
  - reflexivity.
  - apply safeStart_identity.
    + apply ltb_leb. exact Hlt.
    + destruct (sub start' DETAIL_PAD_BEFORE) as [[]|?| |? ? ?];
        cbn in *; congruence.
Qed.

End SnippetMore.

(** ** The tracked child over time *)

Section Tracked.
Import Js MainCancel MainEvents.
Context `{Host}.
Variable delivered : pid -> signal -> bool.




End Tracked.

(** ** The transcript view over time *)

Section TranscriptView.
Import Js Renderer RendererUi.

Lemma toggle_other_class (name other : string) (force : bool) (cl : list string) :
  name <> other ->
  existsb (String.eqb other) (classList_toggle name force cl)
    = existsb (String.eqb other) cl.
Proof.
  intros Hne. assert (Hf : String.eqb other name = false)
    by (apply String.eqb_neq; congruence).
  unfold classList_toggle. destruct force.
  - destruct (existsb (String.eqb name) cl); [reflexivity|].
    rewrite existsb_app. simpl. rewrite Hf, !orb_false_r. reflexivity.
  - induction cl as [|c cl IH]; simpl; [reflexivity|].
    destruct (String.eqb name c) eqn:E; simpl.
    + apply String.eqb_eq in E. subst c. rewrite Hf. exact IH.
    + rewrite IH. reflexivity.
Qed.

Lemma update_first_keys (p : word_el -> bool) (g : list string -> list string)
    (l : list word_el) :
  map data_index (update_first p (set_classes g) l) = map data_index l.
Proof.
  induction l as [|x l IH]; cbn; [reflexivity|].
  destruct (p x); cbn; [reflexivity|]. rewrite IH. reflexivity.
Qed.

Lemma update_first_In {A : Type} (p : A -> bool) (f : A -> A) (l : list A)
    (el : A) :
  In el (update_first p f l) ->
  In el l \/ exists x, In x l /\ p x = true /\ el = f x.
Proof.
  induction l as [|x l IH]; cbn; [tauto|].
  destruct (p x) eqn:E; cbn.
  - intros [<-|Hin]; [right; exists x; auto|left; auto].
  - intros [<-|Hin]; [left; auto|].
    destruct (IH Hin) as [Hl|(y & Hy & Hp & ->)]; [left; auto|].
    right. exists y. auto.
Qed.

Lemma update_first_none {A : Type} (p : A -> bool) (f : A -> A) (l : list A) :
  (forall x, In x l -> p x = false) -> update_first p f l = l.
Proof.
  induction l as [|x l IH]; cbn; intros Hp; [reflexivity|].
  rewrite (Hp x (or_introl eq_refl)). f_equal. apply IH.
  intros y Hy. apply Hp. right. exact Hy.
Qed.

Lemma update_first_clears (k : Z) (l : list word_el) :
  NoDup (map data_index l) ->
  (forall x, In x l -> has_class "playhead" x = true -> data_index x = k) ->
  forall el,
    In el (update_first (has_class "playhead")
             (set_classes (classList_toggle "playhead" false)) l) ->
    has_class "playhead" el = false.
Proof.
  induction l as [|x l IH]; cbn; intros Hnd Hk el; [tauto|].
  apply NoDup_cons in Hnd as [Hx Hnd].
  destruct (has_class "playhead" x) eqn:E; cbn.
  - intros [<-|Hin].
    + unfold has_class, set_classes. cbn [classList]. apply toggle_sets_class.
    + destruct (has_class "playhead" el) eqn:Eel; [|reflexivity].
      exfalso. apply Hx.
      rewrite (Hk x (or_introl eq_refl) E).
      rewrite <- (Hk el (or_intror Hin) Eel).
      apply list_elem_of_In, List.in_map, Hin.
  - intros [<-|Hin]; [exact E|].
    apply IH; auto.
Qed.

Lemma playhead_fields (idx : Z) (u : ui) :
  selectionStart (dom (setPlayheadIndex idx u)) = selectionStart (dom u) /\
  selectionEnd (dom (setPlayheadIndex idx u)) = selectionEnd (dom u) /\
  selectionAnchor (dom (setPlayheadIndex idx u)) = selectionAnchor (dom u) /\
  detailWinStartAbs (dom (setPlayheadIndex idx u)) = detailWinStartAbs (dom u) /\
  words (setPlayheadIndex idx u) = words u /\
  rendered (setPlayheadIndex idx u) = rendered u /\
  audioPath (setPlayheadIndex idx u) = audioPath u /\
  playheadIndex (setPlayheadIndex idx u) = idx /\
  map data_index (nodes (dom (setPlayheadIndex idx u)))
    = map data_index (nodes (dom u)).
Proof.
  unfold setPlayheadIndex.
  destruct (playheadIndex u =? idx) eqn:E.
  - apply Z.eqb_eq in E. repeat split; auto.
  - cbn. repeat split; auto.
    destruct (idx >=? 0); rewrite ?update_first_keys; reflexivity.
Qed.

Lemma In_by_key (l l' : list word_el) (el : word_el) :
  map data_index l' = map data_index l -> In el l' ->
  exists x, In x l /\ data_index x = data_index el.
Proof.
  intros Hm Hin. apply (List.in_map data_index) in Hin. rewrite Hm in Hin.
  apply List.in_map_iff in Hin as (x & Hx & Hin). exists x. auto.
Qed.

Lemma selected_of_set_classes (force : bool) (x : word_el) :
  has_class "selected" (set_classes (classList_toggle "playhead" force) x)
    = has_class "selected" x.
Proof.
  unfold has_class, set_classes. cbn [classList].
  apply toggle_other_class. discriminate.
Qed.

Lemma setPlayheadIndex_consistent (idx : Z) (u : ui) :
  selection_ok u -> spans_ok u ->
  (forall el, In el (nodes (dom u)) ->
     has_class "playhead" el = true -> data_index el = playheadIndex u) ->
  (forall el, In el (nodes (dom u)) ->
     has_class "selected" el =
       inRange (selectionStart (dom u)) (selectionEnd (dom u)) (data_index el)) ->
  -1 <= idx < Z.of_nat (length (words u)) ->
  consistent (setPlayheadIndex idx u).
Proof.
  intros Hsel (Hr & Hrange & Hnd) Hph Hmark Hidx.
  destruct (playhead_fields idx u)
    as (F1 & F2 & F3 & _ & F5 & F6 & _ & F8 & F9).
  split; [|split].
  - unfold selection_ok. rewrite F1, F2, F3, F5. exact Hsel.
  - split; [|split].
    + rewrite F6, F5. destruct Hr as [Hr|Hr]; [left|right; exact Hr].
      destruct (nodes (dom (setPlayheadIndex idx u))) as [|y l]; [reflexivity|].
      rewrite Hr in F9. discriminate F9.
    + intros el Hin. rewrite F5.
      destruct (In_by_key _ _ el F9 Hin) as (x & Hx & <-). apply Hrange, Hx.
    + rewrite F9. exact Hnd.
  - split; [rewrite F8, F5; exact Hidx|].
    rewrite F8, F1, F2. clear F1 F2 F3 F5 F6 F8 F9.
    unfold setPlayheadIndex.
    destruct (playheadIndex u =? idx) eqn:E.
    { apply Z.eqb_eq in E. subst idx. split; assumption. }
    cbn [dom nodes with_nodes].
    set (ns1 := update_first (has_class "playhead")
                  (set_classes (classList_toggle "playhead" false))
                  (nodes (dom u))).
    assert (H1 : forall el, In el ns1 -> has_class "playhead" el = false)
      by (apply (update_first_clears (playheadIndex u)); assumption).
    assert (H2 : forall el, In el ns1 ->
              has_class "selected" el =
                inRange (selectionStart (dom u)) (selectionEnd (dom u))
                        (data_index el)).
    { intros el Hin. apply update_first_In in Hin as [Hin|(x & Hx & _ & ->)].
      - apply Hmark, Hin.
      - rewrite selected_of_set_classes. cbn. apply Hmark, Hx. }
    clearbody ns1.
    destruct (idx >=? 0).
    + split.
      * intros el Hin Hp.
        apply update_first_In in Hin as [Hin|(x & Hx & Hk & ->)].
        -- rewrite (H1 el Hin) in Hp. discriminate.
        -- cbn. apply Z.eqb_eq. exact Hk.
      * intros el Hin.
        apply update_first_In in Hin as [Hin|(x & Hx & _ & ->)].
        -- apply H2, Hin.
        -- rewrite selected_of_set_classes. cbn. apply H2, Hx.
    + split; [|exact H2].
      intros el Hin Hp. rewrite (H1 el Hin) in Hp. discriminate.
Qed.

Lemma selection_nodes (start end' : option Z) (d : Renderer.state) :
  map data_index (nodes (setSelectionRange start end' d))
    = map data_index (nodes d) /\
  forall el, In el (nodes (setSelectionRange start end' d)) ->
    exists x, In x (nodes d) /\ data_index x = data_index el /\
              has_class "playhead" x = has_class "playhead" el.
Proof.
  split.
  - unfold setSelectionRange. cbn [nodes]. rewrite List.map_map. cbn.
    destruct start, end'; reflexivity.
  - unfold setSelectionRange. cbn [nodes]. intros el Hin.
    apply List.in_map_iff in Hin as (x & <- & Hx).
    exists x. split; [destruct start, end'; exact Hx|].
    split; [reflexivity|].
    unfold has_class. cbn [classList]. symmetry.
    apply toggle_other_class. discriminate.
Qed.

Lemma selection_fields (a b : Z) (d : Renderer.state) :
  selectionStart (setSelectionRange (Some a) (Some b) d) = Some (Z.min a b) /\
  selectionEnd (setSelectionRange (Some a) (Some b) d) = Some (Z.max a b) /\
  selectionAnchor (setSelectionRange (Some a) (Some b) d) = selectionAnchor d.
Proof.
  unfold setSelectionRange, normalizeRange.
  destruct (a <=? b) eqn:E; cbn;
    [apply Z.leb_le in E | apply Z.leb_gt in E];
    repeat split; f_equal; lia.
Qed.

(** Setting a selection within the words, with the anchor inside it. *)
Lemma select_consistent (a b c : Z) (u : ui) :
  spans_ok u -> marks_ok u ->
  selectionAnchor (dom u) = Some c ->
  0 <= Z.min a b -> Z.min a b <= c <= Z.max a b ->
  Z.max a b < Z.of_nat (length (words u)) ->
  consistent (with_dom (setSelectionRange (Some a) (Some b) (dom u)) u).
Proof.
  intros (Hr & Hrange & Hnd) (Hpi & Hph & _) Hc H0 Hmid Hlen.
  destruct (selection_fields a b (dom u)) as (F1 & F2 & F3).
  destruct (selection_nodes (Some a) (Some b) (dom u)) as (N1 & N2).
  split; [|split].
  - unfold selection_ok. cbn [dom with_dom words]. rewrite F1, F2, F3, Hc. lia.
  - split; [|split]; cbn [dom with_dom words rendered].
    + destruct Hr as [Hr|Hr]; [left|right; exact Hr].
      rewrite Hr in N1. apply List.map_eq_nil in N1. exact N1.
    + intros el Hin. destruct (N2 el Hin) as (x & Hx & <- & _).
      apply Hrange, Hx.
    + rewrite N1. exact Hnd.
  - split; [exact Hpi|]. cbn [dom with_dom playheadIndex]. split.
    + intros el Hin Hp. destruct (N2 el Hin) as (x & Hx & <- & Hpx).
      apply Hph; [exact Hx|]. rewrite Hpx. exact Hp.
    + intros el Hin. apply selected_after_set. exact Hin.
Qed.

Lemma clear_consistent (u : ui) :
  spans_ok u ->
  -1 <= playheadIndex u < Z.of_nat (length (words u)) \/ True ->
  (forall el, In el (nodes (dom u)) ->
     has_class "playhead" el = true -> data_index el = playheadIndex u) ->
  selection_ok (with_dom (setSelectionRange None None (dom u)) u) /\
  spans_ok (with_dom (setSelectionRange None None (dom u)) u) /\
  (forall el, In el (nodes (setSelectionRange None None (dom u))) ->
     has_class "playhead" el = true -> data_index el = playheadIndex u) /\
  (forall el, In el (nodes (setSelectionRange None None (dom u))) ->
     has_class "selected" el = false).
Proof.
  intros (Hr & Hrange & Hnd) _ Hph.
  destruct (selection_nodes None None (dom u)) as (N1 & N2).
  split; [exact I|]. split; [split; [|split]|split].
  - cbn [dom with_dom words rendered].
    destruct Hr as [Hr|Hr]; [left|right; exact Hr].
    rewrite Hr in N1. apply List.map_eq_nil in N1. exact N1.
  - cbn [dom with_dom words]. intros el Hin.
    destruct (N2 el Hin) as (x & Hx & <- & _). apply Hrange, Hx.
  - cbn [dom with_dom]. rewrite N1. exact Hnd.
  - intros el Hin Hp. destruct (N2 el Hin) as (x & Hx & <- & Hpx).
    apply Hph; [exact Hx|]. rewrite Hpx. exact Hp.
  - intros el Hin. rewrite (selected_after_set None None (dom u) el Hin).
    reflexivity.
Qed.

Lemma spans_from_facts (ws : list TranscriptWord) (i : Z) :
  (forall el, In el (spans_from i ws) ->
     i <= data_index el < i + Z.of_nat (length ws) /\
     classList el = ["word"]) /\
  NoDup (map data_index (spans_from i ws)).
Proof.
  revert i. induction ws as [|w ws IH]; intros i; cbn [spans_from].
  - split; [intros el []|apply NoDup_nil; exact I].
  - destruct (IH (i + 1)) as [Hin Hnd]. split.
    + intros el [<-|Hel]; cbn [data_index classList length].
      * split; [lia|reflexivity].
      * destruct (Hin el Hel) as [Hr Hc]. split; [lia|exact Hc].
    + cbn. apply NoDup_cons. split; [|exact Hnd].
      intros Hi. apply list_elem_of_In, List.in_map_iff in Hi
        as (el & He & Hel).
      destruct (Hin el Hel) as [Hr _]. lia.
Qed.

Lemma word_at_Some (ws : list TranscriptWord) (i : Z) :
  0 <= i < Z.of_nat (length ws) -> exists w, word_at ws i = Some w.
Proof.
  intros Hi. unfold word_at.
  destruct (i <? 0) eqn:E; [apply Z.ltb_lt in E; lia|].
  destruct (lookup_lt_is_Some_2 ws (Z.to_nat i)) as [w Hw]; [lia|].
  exists w. exact Hw.
Qed.

Lemma existsb_index (i : Z) (l : list word_el) :
  existsb (fun el => data_index el =? i) l = true ->
  exists el, In el l /\ data_index el = i.
Proof.
  intros He. apply List.existsb_exists in He as (el & Hin & Hk).
  exists el. split; [exact Hin|apply Z.eqb_eq; exact Hk].
Qed.

(** What a click does, on a consistent view. *)
Lemma click_on_consistent (shiftKey : bool) (i : Z) (u : ui) :
  consistent u ->
  consistent (fst (click shiftKey i u)) /\
  match snd (click shiftKey i u) with
  | NoSuchSpan =>
      fst (click shiftKey i u) = u /\
      forall el, In el (nodes (dom u)) -> data_index el <> i
  | Threw _ => False
  | NoAudioLoaded seek =>
      (audioPath u = None \/ audioPath u = Some "") /\
      exists w, words u !! Z.to_nat i = Some w /\ seek = add (start w) SEEK_EPS
  | SnippetRequested seek audio startSec durSec =>
      audioPath u = Some audio /\ audio <> "" /\
      exists a b w wa wb,
        selectionStart (dom (fst (click shiftKey i u))) = Some a /\
        selectionEnd (dom (fst (click shiftKey i u))) = Some b /\
        0 <= a /\ a <= i /\ i <= b /\
        words u !! Z.to_nat i = Some w /\
        words u !! Z.to_nat a = Some wa /\
        words u !! Z.to_nat b = Some wb /\
        seek = add (start w) SEEK_EPS /\
        startSec = winStart (snd (computeDetailWindow (start wa) (end_ wb) (dom u))) /\
        durSec = winDur (snd (computeDetailWindow (start wa) (end_ wb) (dom u))) /\
        detailWinStartAbs (dom (fst (click shiftKey i u))) = startSec
  end.
Proof.
  intros (Hsel & Hsp & Hmk). unfold click.
  destruct (existsb (fun el => data_index el =? i) (nodes (dom u))) eqn:Hex.
  2:{ cbn [fst snd]. split; [exact (conj Hsel (conj Hsp Hmk))|].
      split; [reflexivity|].
      intros el Hin Hk.
      assert (Ht : existsb (fun el => data_index el =? i) (nodes (dom u)) = true).
      { apply List.existsb_exists. exists el. split; [exact Hin|].
        apply Z.eqb_eq. exact Hk. }
      congruence. }
  destruct (existsb_index _ _ Hex) as (eli & Hin_i & Hki).
  pose proof Hsp as (Hr & Hrange & Hnd).
  assert (Hi : 0 <= i < Z.of_nat (length (words u)))
    by (rewrite <- Hki; apply Hrange, Hin_i).
  assert (Hrw : rendered u = words u).
  { destruct Hr as [Hr|Hr]; [|exact Hr]. rewrite Hr in Hin_i. destruct Hin_i. }
  rewrite Hrw.
  destruct (word_at_Some (words u) i Hi) as [w Hw]. rewrite Hw.
  assert (Hwi : words u !! Z.to_nat i = Some w).
  { unfold word_at in Hw. destruct (i <? 0); [discriminate|exact Hw]. }
  (* the selection the click sets *)
  set (d1 := match shiftKey, selectionAnchor (dom u) with
             | true, Some a => setSelectionRange (Some a) (Some i) (dom u)
             | _, _ => setSelectionRange (Some i) (Some i)
                         (with_anchor (Some i) (dom u))
             end).
  assert (Hd1 : consistent (with_dom d1 u) /\
                exists a b, selectionStart d1 = Some a /\
                            selectionEnd d1 = Some b /\
                            0 <= a /\ a <= i /\ i <= b /\
                            b < Z.of_nat (length (words u))).
  { assert (Hplain :
      consistent (with_dom (setSelectionRange (Some i) (Some i)
                              (with_anchor (Some i) (dom u))) u) /\
      exists a b,
        selectionStart (setSelectionRange (Some i) (Some i)
                          (with_anchor (Some i) (dom u))) = Some a /\
        selectionEnd (setSelectionRange (Some i) (Some i)
                        (with_anchor (Some i) (dom u))) = Some b /\
        0 <= a /\ a <= i /\ i <= b /\ b < Z.of_nat (length (words u))).
    { split.
      - apply (select_consistent i i i
                 (with_dom (with_anchor (Some i) (dom u)) u)).
        + exact Hsp.
        + exact Hmk.
        + reflexivity.
        + lia.
        + lia.
        + cbn. lia.
      - destruct (selection_fields i i (with_anchor (Some i) (dom u)))
          as (F1 & F2 & _).
        exists (Z.min i i), (Z.max i i). rewrite F1, F2.
        repeat split; lia. }
    subst d1. destruct shiftKey; [|exact Hplain].
    destruct (selectionAnchor (dom u)) as [c|] eqn:Hc; [|exact Hplain].
    unfold selection_ok in Hsel. rewrite Hc in Hsel.
    destruct (selectionStart (dom u)) as [a0|]; [|destruct (selectionEnd (dom u)); tauto].
    destruct (selectionEnd (dom u)) as [b0|]; [|tauto].
    split.
    - apply (select_consistent c i c u); auto; lia.
    - destruct (selection_fields c i (dom u)) as (F1 & F2 & _).
      exists (Z.min c i), (Z.max c i). rewrite F1, F2.
      repeat split; lia. }
  clearbody d1. destruct Hd1 as [Hc1 (a & b & Ha & Hb & H0a & Hai & Hib & Hbl)].
  (* the playhead *)
  set (u1 := setPlayheadIndex i (with_dom d1 u)).
  assert (Hc2 : consistent u1).
  { destruct Hc1 as (S1 & S2 & (_ & M2 & M3)).
    apply setPlayheadIndex_consistent; auto. cbn. lia. }
  destruct (playhead_fields i (with_dom d1 u))
    as (F1 & F2 & F3 & F4 & F5 & F6 & F7 & F8 & F9).
  fold u1 in F1, F2, F3, F4, F5, F6, F7, F8, F9.
  cbn [dom with_dom words rendered audioPath] in F1, F2, F5, F6, F7.
  rewrite F1, F2, Ha, Hb, F6, Hrw.
  destruct (word_at_Some (words u) a ltac:(lia)) as [wa Hwa].
  destruct (word_at_Some (words u) b ltac:(lia)) as [wb Hwb].
  rewrite Hwa, Hwb, F7.
  assert (Hwa' : words u !! Z.to_nat a = Some wa).
  { unfold word_at in Hwa. destruct (a <? 0); [discriminate|exact Hwa]. }
  assert (Hwb' : words u !! Z.to_nat b = Some wb).
  { unfold word_at in Hwb. destruct (b <? 0); [discriminate|exact Hwb]. }
  clearbody u1.
  destruct (audioPath u) as [p|] eqn:Hp.
  2:{ cbn [fst snd]. split; [exact Hc2|]. split; [left; reflexivity|].
      exists w. auto. }
  destruct (String.eqb p "") eqn:Hpe.
  { apply String.eqb_eq in Hpe. subst p. cbn [fst snd].
    split; [exact Hc2|]. split; [right; reflexivity|]. exists w. auto. }
  apply String.eqb_neq in Hpe. cbn [fst snd]. split.
  - destruct Hc2 as (S1 & S2 & S3). split; [|split]; assumption.
  - split; [reflexivity|]. split; [exact Hpe|].
    exists a, b, w, wa, wb. cbn [dom with_dom].
    unfold computeDetailWindow.
    cbn [fst snd selectionStart selectionEnd winStart winDur detailWinStartAbs].
    rewrite F1, F2. repeat split; auto.
Qed.

Lemma renderTranscript_facts (ws : list TranscriptWord) (u : ui) :
  (forall el, In el (nodes (dom (renderTranscript ws u))) ->
     has_class "playhead" el = false) /\
  map data_index (nodes (dom (renderTranscript ws u)))
    = map data_index (spans_from 0 ws) /\
  rendered (renderTranscript ws u) = ws /\
  words (renderTranscript ws u) = words u /\
  audioPath (renderTranscript ws u) = audioPath u /\
  playheadIndex (renderTranscript ws u) =
    (if (playheadIndex u >=? 0) && (playheadIndex u <? Z.of_nat (length ws))
     then playheadIndex u else -1) /\
  dom (renderTranscript ws u) =
    (let d0 := with_nodes (spans_from 0 ws) (dom u) in
     match selectionStart d0, selectionEnd d0 with
     | Some a, Some b =>
         let maxIdx := Z.of_nat (length ws) - 1 in
         if (a >? maxIdx) || (b >? maxIdx) then setSelectionRange None None d0
         else setSelectionRange (Some a) (Some b) d0
     | _, _ => d0
     end).
Proof.
  unfold renderTranscript.
  set (d0 := with_nodes (spans_from 0 ws) (dom u)).
  set (d1 := match selectionStart d0, selectionEnd d0 with
             | Some a, Some b =>
                 let maxIdx := Z.of_nat (length ws) - 1 in
                 if (a >? maxIdx) || (b >? maxIdx)
                 then setSelectionRange None None d0
                 else setSelectionRange (Some a) (Some b) d0
             | _, _ => d0
             end).
  assert (Hfresh : forall el, In el (nodes d0) -> has_class "playhead" el = false).
  { intros el Hin. destruct (spans_from_facts ws 0) as [Hf _].
    destruct (Hf el Hin) as [_ Hc]. unfold has_class. rewrite Hc. reflexivity. }
  assert (Hd1 : (forall el, In el (nodes d1) -> has_class "playhead" el = false) /\
                map data_index (nodes d1) = map data_index (spans_from 0 ws)).
  { subst d1. cbv zeta.
    destruct (selectionStart d0) as [a|]; [|split; [exact Hfresh|reflexivity]].
    destruct (selectionEnd d0) as [b|]; [|split; [exact Hfresh|reflexivity]].
    destruct ((a >? Z.of_nat (length ws) - 1) || (b >? Z.of_nat (length ws) - 1)).
    - destruct (selection_nodes None None d0) as (N1 & N2). split; [|exact N1].
      intros el Hin. destruct (N2 el Hin) as (x & Hx & _ & <-). apply Hfresh, Hx.
    - destruct (selection_nodes (Some a) (Some b) d0) as (N1 & N2).
      split; [|exact N1].
      intros el Hin. destruct (N2 el Hin) as (x & Hx & _ & <-). apply Hfresh, Hx. }
  clearbody d1. destruct Hd1 as [Hno Hkeys].
  set (u1 := {| dom := d1; audioPath := audioPath u; words := words u;
                rendered := ws; playheadIndex := playheadIndex u |}).
  destruct ((playheadIndex u >=? 0) && (playheadIndex u <? Z.of_nat (length ws)))
    eqn:Ein.
  - assert (Heq : setPlayheadIndex (playheadIndex u) u1 = u1).
    { unfold setPlayheadIndex. cbn [playheadIndex u1]. rewrite Z.eqb_refl.
      reflexivity. }
    rewrite Heq. cbn. repeat split; auto.
  - unfold setPlayheadIndex. cbn [playheadIndex u1].
    destruct (playheadIndex u =? -1) eqn:E1.
    + apply Z.eqb_eq in E1. cbn. repeat split; auto.
    + cbn [dom nodes with_nodes u1 Z.geb Z.compare rendered words audioPath
           playheadIndex].
      rewrite (update_first_none _ _ (nodes d1) Hno).
      repeat split; auto. destruct d1; reflexivity.
Qed.

Lemma transcribed_consistent (result : list TranscriptWord) (u : ui) :
  consistent u -> consistent (step u (Transcribed result)).
Proof.
  intros (Hsel & _ & ((Hp1 & Hp2) & _ & _)). cbn [step].
  set (u0 := {| dom := dom u; audioPath := audioPath u; words := result;
                rendered := rendered u; playheadIndex := playheadIndex u |}).
  destruct (renderTranscript_facts result u0)
    as (Hno & Hkeys & Hr & Hw & _ & Hpi & Hdom).
  cbn [words u0 playheadIndex dom] in Hw, Hpi, Hdom.
  destruct (spans_from_facts result 0) as [Hf Hnd].
  assert (Hrange : forall el,
            In el (nodes (dom (renderTranscript result u0))) ->
            0 <= data_index el < Z.of_nat (length result)).
  { intros el Hin.
    destruct (In_by_key _ _ el Hkeys Hin) as (x & Hx & <-).
    destruct (Hf x Hx) as [Hr0 _]. lia. }
  split; [|split].
  - (* selection *)
    unfold selection_ok in *. rewrite Hw, Hdom. cbv zeta.
    cbn [selectionStart selectionEnd with_nodes].
    destruct (selectionStart (dom u)) as [a|] eqn:Ea;
      destruct (selectionEnd (dom u)) as [b|] eqn:Eb;
      destruct (selectionAnchor (dom u)) as [c|] eqn:Ec; try tauto.
    + destruct ((a >? Z.of_nat (length result) - 1) ||
                (b >? Z.of_nat (length result) - 1)) eqn:E.
      * cbn. exact I.
      * apply orb_false_iff in E as [E1 E2].
        rewrite Z.gtb_ltb in E1, E2. apply Z.ltb_ge in E1, E2.
        destruct (selection_fields a b (with_nodes (spans_from 0 result) (dom u)))
          as (F1 & F2 & F3).
        rewrite F1, F2, F3. cbn [selectionAnchor with_nodes]. rewrite Ec. lia.
    + cbn [selectionStart selectionEnd selectionAnchor with_nodes].
      rewrite Ea, Eb, Ec. exact I.
  - split; [|split].
    + right. rewrite Hr, Hw. reflexivity.
    + rewrite Hw. exact Hrange.
    + rewrite Hkeys. exact Hnd.
  - split; [|split].
    + rewrite Hpi, Hw.
      destruct ((playheadIndex u >=? 0) &&
                (playheadIndex u <? Z.of_nat (length result))) eqn:E; [|lia].
      apply andb_true_iff in E as [E1 E2]. apply Z.ltb_lt in E2. lia.
    + intros el Hin Hp. rewrite (Hno el Hin) in Hp. discriminate.
    + intros el. rewrite Hdom. cbv zeta.
      cbn [selectionStart selectionEnd with_nodes].
      destruct (selectionStart (dom u)) as [a|] eqn:Ea.
      2:{ cbn [nodes with_nodes selectionStart selectionEnd]. rewrite Ea.
          intros Hin.
          destruct (Hf el Hin) as [_ Hcl]. unfold has_class. rewrite Hcl.
          reflexivity. }
      destruct (selectionEnd (dom u)) as [b|] eqn:Eb.
      2:{ cbn [nodes with_nodes selectionStart selectionEnd]. rewrite Ea, Eb.
          intros Hin.
          destruct (Hf el Hin) as [_ Hcl]. unfold has_class. rewrite Hcl.
          reflexivity. }
      destruct ((a >? Z.of_nat (length result) - 1) ||
                (b >? Z.of_nat (length result) - 1));
        apply selected_after_set.
Qed.

Lemma step_consistent (u : ui) (ev : event) :
  consistent u -> consistent (step u ev).
Proof.
  intros Hc. destruct ev as [shiftKey i|t|result| |chosen].
  - apply click_on_consistent. exact Hc.
  - cbn [step]. destruct Hc as (S1 & S2 & (_ & M2 & M3)).
    apply setPlayheadIndex_consistent; auto.
    unfold timeupdate_index.
    assert (Hscan : forall ws k te,
              scan_from k te ws = -1 \/
              k <= scan_from k te ws < k + Z.of_nat (length ws)).
    { induction ws as [|w ws IH]; intros k te; cbn; [left; reflexivity|].
      destruct (covers te w); [right; lia|].
      destruct (IH (k + 1) te) as [->|Hr]; [left; reflexivity|right; lia]. }
    destruct (Hscan (words u) 0 (add t lit_0_01)) as [->|Hr]; lia.
  - apply transcribed_consistent. exact Hc.
  - destruct Hc as (S1 & (_ & _ & _) & (M1 & _ & _)). cbn [step].
    split; [exact S1|]. split; [|split; [exact M1|]].
    + split; [left; reflexivity|]. split; [intros el []|apply NoDup_nil; exact I].
    + split; intros el [].
  - exact Hc.
Qed.

Lemma run_consistent (events : list event) (u : ui) :
  consistent u -> consistent (run events u).
Proof.
  revert u. induction events as [|ev events IH]; intros u Hc; [exact Hc|].
  cbn. apply IH, step_consistent, Hc.
Qed.

Lemma initial_consistent : consistent initial.
Proof.
  split; [exact I|]. split.
  - split; [left; reflexivity|]. split; [intros el []|apply NoDup_nil; exact I].
  - split; [cbn; lia|]. split; intros el [].
Qed.

(** X13. Whatever the user does, from the start of the renderer: the selection
    is empty or lies within the transcript with the anchor inside it; the
    playhead index is -1 or a word's; every span carries the index of a
    word and no two the same; at most the span of the playhead index is
    marked as playhead; and a span is marked selected exactly when its
    index is in the selection. *)
Theorem transcript_view_stays_consistent (events : list event) :
  let u := run events initial in
  match selectionStart (dom u), selectionEnd (dom u), selectionAnchor (dom u) with
  | None, None, None => True
  | Some a, Some b, Some c =>
      0 <= a /\ a <= c /\ c <= b /\ b < Z.of_nat (length (words u))
  | _, _, _ => False
  end /\
  -1 <= playheadIndex u < Z.of_nat (length (words u)) /\
  NoDup (map data_index (nodes (dom u))) /\
  forall el, In el (nodes (dom u)) ->
    0 <= data_index el < Z.of_nat (length (words u)) /\
    (has_class "playhead" el = true -> data_index el = playheadIndex u) /\
    has_class "selected" el =
      inRange (selectionStart (dom u)) (selectionEnd (dom u)) (data_index el).
Proof.
  intros u.
  destruct (run_consistent events initial initial_consistent)
    as (Hsel & (_ & Hrange & Hnd) & (Hpi & Hph & Hmark)).
  fold u in Hsel, Hrange, Hnd, Hpi, Hph, Hmark.
  split; [exact Hsel|]. split; [exact Hpi|]. split; [exact Hnd|].
  intros el Hin. split; [apply Hrange, Hin|]. split; [apply Hph, Hin|].
  apply Hmark, Hin.
Qed.

(** X14. A click never reads a word that is not there. After any history, the
    handler of a span does not throw: it either finds no audio loaded, or
    asks for the snippet of the selection it has just set, which contains
    the clicked word; the window it asks for is the one
    [computeDetailWindow] gives for the start of the selection's first
    word and the end of its last, and its start is kept in
    [detailWinStartAbs]. *)
Theorem click_reads_only_words_that_exist (events : list event)
    (shiftKey : bool) (i : Z) :
  let u := run events initial in
  match snd (click shiftKey i u) with
  | NoSuchSpan =>
      fst (click shiftKey i u) = u /\
      forall el, In el (nodes (dom u)) -> data_index el <> i
  | Threw _ => False
  | NoAudioLoaded seek =>
      (audioPath u = None \/ audioPath u = Some "") /\
      exists w, words u !! Z.to_nat i = Some w /\ seek = add (start w) SEEK_EPS
  | SnippetRequested seek audio startSec durSec =>
      audioPath u = Some audio /\ audio <> "" /\
      exists a b w wa wb,
        selectionStart (dom (fst (click shiftKey i u))) = Some a /\
        selectionEnd (dom (fst (click shiftKey i u))) = Some b /\
        0 <= a /\ a <= i /\ i <= b /\
        words u !! Z.to_nat i = Some w /\
        words u !! Z.to_nat a = Some wa /\
        words u !! Z.to_nat b = Some wb /\
        seek = add (start w) SEEK_EPS /\
        startSec = winStart (snd (computeDetailWindow (start wa) (end_ wb) (dom u))) /\
        durSec = winDur (snd (computeDetailWindow (start wa) (end_ wb) (dom u))) /\
        detailWinStartAbs (dom (fst (click shiftKey i u))) = startSec
  end.
Proof.
  intros u.
  apply (click_on_consistent shiftKey i u).
  apply run_consistent, initial_consistent.
Qed.

(** X15. Rendering a transcript does not put the playhead mark back. After
    [renderTranscript], from any state, no span is marked as playhead;
    yet when the playhead index is a word of the new transcript it is
    kept, so the [timeupdate]s that find the same word leave the spans
    as they are, unmarked, and the mark returns only when the playhead
    reaches another word. *)
Theorem rendering_drops_the_playhead_mark
    (ws : list TranscriptWord) (u : ui) :
  let u' := renderTranscript ws u in
  (forall el, In el (nodes (dom u')) -> has_class "playhead" el = false) /\
  (0 <= playheadIndex u < Z.of_nat (length ws) ->
   playheadIndex u' = playheadIndex u /\
   forall t, timeupdate_index t (words u') = playheadIndex u ->
     step u' (TimeUpdate t) = u') /\
  (~ 0 <= playheadIndex u < Z.of_nat (length ws) -> playheadIndex u' = -1).
Proof.
  intros u'.
  destruct (renderTranscript_facts ws u) as (Hno & _ & _ & _ & _ & Hpi & _).
  fold u' in Hno, Hpi.
  split; [exact Hno|]. split.
  - intros Hr.
    assert (E : (playheadIndex u >=? 0) &&
                (playheadIndex u <? Z.of_nat (length ws)) = true).
    { apply andb_true_iff. split; [apply Z.geb_le|apply Z.ltb_lt]; lia. }
    rewrite E in Hpi. split; [exact Hpi|].
    intros t Ht. cbn [step]. rewrite Ht. unfold setPlayheadIndex.
    rewrite Hpi, Z.eqb_refl. reflexivity.
  - intros Hr.
    destruct ((playheadIndex u >=? 0) &&
              (playheadIndex u <? Z.of_nat (length ws))) eqn:E; [|exact Hpi].
    apply andb_true_iff in E as [E1 E2].
    apply Z.geb_le in E1. apply Z.ltb_lt in E2. lia.
Qed.

End TranscriptView.

(** ** setSelectionRange, applied again and backwards *)

Section SelectionMore.
Import Renderer.

Lemma toggle_idempotent (name : string) (force : bool) (cl : list string) :
  classList_toggle name force (classList_toggle name force cl)
    = classList_toggle name force cl.
Proof.
  unfold classList_toggle. destruct force.
  - destruct (existsb (String.eqb name) cl) eqn:E.
    + rewrite E. reflexivity.
    + assert (Ht : existsb (String.eqb name) (cl ++ [name]) = true).
      { rewrite existsb_app. cbn [existsb]. rewrite String.eqb_refl.
        rewrite orb_true_r. reflexivity. }
      rewrite Ht. reflexivity.
  - induction cl as [|c cl IH]; cbn [List.filter]; [reflexivity|].
    destruct (negb (String.eqb name c)) eqn:E; cbn [List.filter].
    + rewrite E, IH. reflexivity.
    + exact IH.
Qed.

(** X16. A selection made from its end to its start is the selection made
    from its start to its end, and setting the same selection again
    changes nothing: neither the three indices nor any class list. *)
Theorem setSelectionRange_backwards_and_again
    (a b : Z) (start end' : option Z) (s : state) :
  setSelectionRange (Some a) (Some b) s = setSelectionRange (Some b) (Some a) s /\
  setSelectionRange start end' (setSelectionRange start end' s)
    = setSelectionRange start end' s.
Proof.
  split.
  - unfold setSelectionRange, normalizeRange.
    destruct (a <=? b) eqn:E1, (b <=? a) eqn:E2;
      cbn [selectionStart selectionEnd selectionAnchor detailWinStartAbs
           nodes range_start range_end]; try reflexivity.
    + apply Z.leb_le in E1, E2. assert (a = b) by lia. subst b. reflexivity.
    + apply Z.leb_gt in E1, E2. lia.
  - destruct start as [x|], end' as [y|];
      unfold setSelectionRange, normalizeRange;
      try destruct (x <=? y);
      cbn [selectionStart selectionEnd selectionAnchor detailWinStartAbs
           nodes range_start range_end];
      f_equal; rewrite List.map_map; apply List.map_ext; intros el;
      cbn [data_index classList]; f_equal; apply toggle_idempotent.
Qed.

End SelectionMore.

(** ** shortenFilenameMiddle *)

Section ShortName.
Import JsText RendererUi.

Lemma slice_prefix (s : text) (n : Z) :
  0 <= n <= Z.of_nat (length s) -> slice s 0 (Some n) = take (Z.to_nat n) s.
Proof.
  intros Hn. unfold slice, relative_index. cbn [Z.ltb Z.compare].
  destruct (n <? 0) eqn:E; [apply Z.ltb_lt in E; lia|].
  replace (Z.to_nat (Z.min 0 (Z.of_nat (length s)))) with 0%nat by lia.
  replace (Z.to_nat (Z.min n (Z.of_nat (length s))) - 0)%nat
    with (Z.to_nat n) by lia.
  reflexivity.
Qed.

Lemma slice_from (s : text) (n : Z) :
  0 <= n <= Z.of_nat (length s) -> slice s n None = drop (Z.to_nat n) s.
Proof.
  intros Hn. unfold slice, relative_index.
  destruct (n <? 0) eqn:E; [apply Z.ltb_lt in E; lia|].
  replace (Z.to_nat (Z.min n (Z.of_nat (length s)))) with (Z.to_nat n) by lia.
  apply take_ge. rewrite length_drop. lia.
Qed.

Lemma slice_last (s : text) (k : Z) :
  0 < k <= Z.of_nat (length s) ->
  slice s (- k) None = drop (List.length s - Z.to_nat k) s.
Proof.
  intros Hk. unfold slice, relative_index.
  destruct (- k <? 0) eqn:E; [|apply Z.ltb_ge in E; lia].
  replace (Z.to_nat (Z.max (Z.of_nat (length s) + - k) 0))
    with (List.length s - Z.to_nat k)%nat by lia.
  apply take_ge. rewrite length_drop. lia.
Qed.

Lemma last_index_absent (c : N) (s : text) :
  ~ In c s -> last_index c s = None.
Proof.
  induction s as [|x s IH]; cbn; intros Hn; [reflexivity|].
  rewrite IH by tauto.
  destruct (N.eqb x c) eqn:E; [|reflexivity].
  apply N.eqb_eq in E. tauto.
Qed.

Lemma last_index_app (c : N) (base t : text) :
  ~ In c t -> last_index c (base ++ c :: t)%list = Some (List.length base).
Proof.
  intros Hn. induction base as [|x base IH]; cbn.
  - rewrite (last_index_absent c t Hn), N.eqb_refl. reflexivity.
  - rewrite IH. reflexivity.
Qed.

(** X17. A name longer than [maxLength] is cut to exactly [maxLength] code
    units: the front of the base, an ellipsis, the back of the base and
    the extension, where the extension starts at the last full stop. That
    is so when the extension leaves room for two characters of the base
    or more. When it leaves room for one or none, the whole name follows
    the ellipsis, and the result is longer than the name. *)
Theorem shortened_name_has_the_asked_length
    (base ext : text) (maxLength : Z) :
  (ext = [] /\ ~ In full_stop base \/
   exists t, ext = full_stop :: t /\ ~ In full_stop t) ->
  maxLength < Z.of_nat (List.length (base ++ ext)%list) ->
  let maxBase := maxLength - Z.of_nat (List.length ext) - 1 in
  let out := shortenFilenameMiddle (base ++ ext)%list maxLength in
  (2 <= maxBase ->
     out = (take (Z.to_nat ((maxBase + 1) / 2)) base ++ [ellipsis] ++
            drop (List.length base - Z.to_nat (maxBase / 2)) base ++ ext)%list /\
     Z.of_nat (List.length out) = maxLength) /\
  (0 <= maxBase <= 1 ->
     out = (take (Z.to_nat maxBase) base ++ [ellipsis] ++ base ++ ext)%list /\
     Z.of_nat (List.length out) = Z.of_nat (List.length (base ++ ext)%list) + 1 + maxBase).
Proof.
  intros Hsplit Hlong maxBase out.
  assert (Hlen : Z.of_nat (List.length (base ++ ext)%list) =
                 Z.of_nat (List.length base) + Z.of_nat (List.length ext))
    by (rewrite List.length_app; lia).
  assert (Hout : out =
    (slice base 0 (Some ((maxBase + 1) / 2)) ++ [ellipsis] ++
     slice base (- (maxBase / 2)) None ++ ext)%list).
  { subst out maxBase. unfold shortenFilenameMiddle.
    destruct (Z.of_nat (List.length (base ++ ext)%list) <=? maxLength) eqn:E;
      [apply Z.leb_le in E; lia|].
    unfold lastIndexOf.
    destruct Hsplit as [[-> Hno]|(t & -> & Hno)].
    - rewrite app_nil_r, (last_index_absent _ _ Hno). reflexivity.
    - rewrite (last_index_app _ _ _ Hno).
      destruct (Z.of_nat (List.length base) =? -1) eqn:E1;
        [apply Z.eqb_eq in E1; lia|].
      rewrite (slice_from (base ++ full_stop :: t)%list
                 (Z.of_nat (List.length base)))
        by (rewrite List.length_app; lia).
      rewrite (slice_prefix (base ++ full_stop :: t)%list
                 (Z.of_nat (List.length base)))
        by (rewrite List.length_app; lia).
      rewrite Nat2Z.id, drop_app_length, take_app_length. reflexivity. }
  assert (Hsum : (maxBase + 1) / 2 + maxBase / 2 = maxBase)
    by (Z.div_mod_to_equations; lia).
  split.
  - intros H2.
    assert (Hf : 1 <= (maxBase + 1) / 2 <= maxBase)
      by (Z.div_mod_to_equations; lia).
    assert (Hb : 1 <= maxBase / 2 <= maxBase)
      by (Z.div_mod_to_equations; lia).
    rewrite Hout.
    rewrite slice_prefix by (subst maxBase; lia).
    rewrite slice_last by (subst maxBase; lia).
    split; [reflexivity|].
    rewrite !List.length_app, length_take, length_drop. cbn [length].
    subst maxBase. lia.
  - intros H01.
    assert (Hf : (maxBase + 1) / 2 = maxBase)
      by (Z.div_mod_to_equations; lia).
    assert (Hb : maxBase / 2 = 0) by (Z.div_mod_to_equations; lia).
    rewrite Hout, Hf, Hb.
    rewrite slice_prefix by (subst maxBase; lia).
    change (- 0) with 0. rewrite slice_from by lia.
    change (Z.to_nat 0) with 0%nat. rewrite drop_0.
    split; [reflexivity|].
    rewrite !List.length_app, length_take. cbn [length].
    rewrite ?List.length_app. subst maxBase. lia.
Qed.

End ShortName.

(** ** readFileAsArrayBuffer *)

Section ArrayBufferCopy.
Import Js Preload.

(** X18. The renderer gets the file's bytes and nothing else. A Node buffer
    may be a view into a larger shared pool; the copy that is resolved
    holds exactly the [byteLength] bytes of the view, whatever else the
    pool holds before and after them. *)
Theorem readFileAsArrayBuffer_copies_only_the_file
    (readFile : string -> string + Buffer) (filePath : string)
    (before bytes after : list N) :
  readFile filePath =
    inr {| buffer := (before ++ bytes ++ after)%list;
           byteOffset := length before;
           byteLength := length bytes |} ->
  readFileAsArrayBuffer readFile filePath = Resolved bytes.
Proof.
  intros Hr. unfold readFileAsArrayBuffer. rewrite Hr.
  cbn [buffer byteOffset byteLength]. f_equal.
  unfold JsText.slice, JsText.relative_index.
  rewrite !List.length_app.
  destruct (Z.of_nat (length before) <? 0) eqn:E1;
    [apply Z.ltb_lt in E1; lia|].
  destruct (Z.of_nat (length before) + Z.of_nat (length bytes) <? 0) eqn:E2;
    [apply Z.ltb_lt in E2; lia|].
  replace (Z.to_nat (Z.min (Z.of_nat (length before))
             (Z.of_nat (length before + (length bytes + length after)))))
    with (length before) by lia.
  replace (Z.to_nat (Z.min (Z.of_nat (length before) + Z.of_nat (length bytes))
             (Z.of_nat (length before + (length bytes + length after))))
           - length before)%nat
    with (length bytes) by lia.
  rewrite drop_app_length, take_app_length. reflexivity.
Qed.

End ArrayBufferCopy.

(** ** The further properties on the worked inputs *)

(** "default_spec.json" on the installation: the path read is the entry
    of that name in sample_specs, and its text is returned. *)
Lemma read_spec_file_outcomes_example :
  Main.read_spec_file ["app"; "dist"] installed "default_spec.json"
    = ( [ NodePath.OpExists ["app"; "otter_py"; "sample_specs"; "default_spec.json"];
          NodePath.OpRead ["app"; "otter_py"; "sample_specs"; "default_spec.json"] ],
        Js.Resolved "{ steps: [] }" ).
Proof.
  assert (Hno : ~ In NodePath.slash (list_ascii_of_string "default_spec.json")).
  { vm_compute. intuition discriminate. }
  destruct (read_spec_file_outcomes ["app"; "dist"] installed
              "default_spec.json" Hno) as (_ & _ & _ & _ & _ & Hfile).
  apply (Hfile "{ steps: [] }"). vm_compute. reflexivity.
Defined.

(** The spec the renderer shows for "default_spec.json" is the file the
    transcription is started with. *)
Lemma transcribe_runs_the_spec_that_was_read_example :
  NodePath.resolve installed
    (MainMore.specPath ["app"; "dist"] "default_spec.json")
    = Some (NodePath.File "{ steps: [] }") /\
  MainMore.transcribe_argv ["app"; "dist"] "/audio/talk.wav"
    (Some (MainMore.SpecFile "default_spec.json"))
    = [ "-m"; "otter_py.transcribe"; "run"; "--audio"; "/audio/talk.wav";
        "--spec-file";
        MainMore.path_string
          (MainMore.specPath ["app"; "dist"] "default_spec.json") ].
Proof.
  apply (transcribe_runs_the_spec_that_was_read ["app"; "dist"] installed
           "default_spec.json" "{ steps: [] }" "/audio/talk.wav").
  vm_compute. reflexivity.
Defined.

(** "../secret.txt" is refused by read-spec-file and handed to the
    transcription as /app/otter_py/secret.txt. *)
Lemma transcribe_accepts_names_outside_sample_specs_example :
  MainMore.transcribe_argv ["app"; "dist"] "/audio/talk.wav"
    (Some (MainMore.SpecFile "../secret.txt"))
    = [ "-m"; "otter_py.transcribe"; "run"; "--audio"; "/audio/talk.wav";
        "--spec-file"; "/app/otter_py/secret.txt" ] /\
  Main.read_spec_file ["app"; "dist"] installed "../secret.txt"
    = ([], Js.Rejected "Invalid spec file name").
Proof.
  assert (Hplain : MainMore.plain_name "secret.txt").
  { split; [vm_compute; intuition discriminate|].
    repeat split; discriminate. }
  destruct (transcribe_accepts_names_outside_sample_specs
              ["app"; "dist"] installed "secret.txt" "/audio/talk.wav" Hplain)
    as (_ & Hargv & Hread).
  split; [exact Hargv|exact Hread].
Defined.

(** The one name listed on the installation can be read. *)
Lemma listed_spec_files_can_be_read_example :
  exists content,
    Main.read_spec_file ["app"; "dist"] installed "default_spec.json"
      = ( [ NodePath.OpExists ["app"; "otter_py"; "sample_specs"; "default_spec.json"];
            NodePath.OpRead ["app"; "otter_py"; "sample_specs"; "default_spec.json"] ],
          Js.Resolved content ).
Proof.
  assert (Hplain : MainMore.plain_name "default_spec.json").
  { split; [vm_compute; intuition discriminate|].
    repeat split; discriminate. }
  destruct (listed_spec_files_can_be_read (H := ascii_locale)
              ["app"; "dist"] installed
              [ ("default_spec.json", NodePath.File "{ steps: [] }") ]
              ["default_spec.json"])
    as [_ Hread].
  - vm_compute. reflexivity.
  - apply NoDup_singleton.
  - apply Forall_cons. split; [exact Hplain|apply Forall_nil; exact I].
  - vm_compute. reflexivity.
  - destruct (Hread "default_spec.json" (or_introl eq_refl))
      as (_ & content & _ & Hr).
    exists content. exact Hr.
Defined.


(** The three entries with the middle one muted export as the two kept
    ones do under other ids and labels. *)
Lemma export_depends_on_non_muted_ranges_only_example :
  Main.export_edl_audio (H := ExampleHost.host)
    (Main.Parsed (edl_of 1 "/audio/talk.wav"
                    [entry_0_2; entry_3_5_muted; entry_5_9] "2026-01-02"))
    (save_to "/out/talk_edit.wav") ffmpeg_ok
  = Main.export_edl_audio (H := ExampleHost.host)
      (Main.Parsed (edl_of 1 "/audio/talk.wav" entries_kept_renamed "2026-03-04"))
      (save_to "/out/talk_edit.wav") ffmpeg_ok.
Proof.
  apply (export_depends_on_non_muted_ranges_only (H := ExampleHost.host));
    reflexivity.
Defined.

(** An export that reports a file. *)
Lemma export_reports_a_file_only_after_success_example :
  snd (Main.export_edl_audio (H := ExampleHost.host)
         (Main.Parsed (edl_of 1 "/audio/talk.wav" [entry_0_2; entry_5_9] "2026-01-02"))
         (save_to "/out/talk_edit.wav") ffmpeg_ok)
    = Js.Resolved (Some "/out/talk_edit.wav") /\
  Main.filePath (save_to "/out/talk_edit.wav") = "/out/talk_edit.wav" /\
  Main.save_canceled (save_to "/out/talk_edit.wav") = false.
Proof.
  assert (Hr : snd (Main.export_edl_audio (H := ExampleHost.host)
                 (Main.Parsed (edl_of 1 "/audio/talk.wav"
                                 [entry_0_2; entry_5_9] "2026-01-02"))
                 (save_to "/out/talk_edit.wav") ffmpeg_ok)
               = Js.Resolved (Some "/out/talk_edit.wav"))
    by (vm_compute; reflexivity).
  split; [exact Hr|].
  destruct (export_reports_a_file_only_after_success (H := ExampleHost.host)
              (Main.Parsed (edl_of 1 "/audio/talk.wav"
                              [entry_0_2; entry_5_9] "2026-01-02"))
              (save_to "/out/talk_edit.wav") ffmpeg_ok)
    as [Hfile _].
  destruct (Hfile "/out/talk_edit.wav" Hr) as (Hp & _ & Hc & _).
  split; [symmetry; exact Hp|exact Hc].
Defined.

(** A snippet of two seconds from second one. *)
Lemma make_snippet_keeps_a_valid_request_example :
  Main.snippet_args (H := ExampleHost.host) "/audio/talk.wav"
    (Js.VPrim (Js.PNumber (Js.of_Z 1))) (Js.VPrim (Js.PNumber (Js.of_Z 2)))
    "/snippets/snippet_1_2.wav"
  = [ "-hide_banner"; "-y";
      "-ss"; Js.NumberToString (Host := ExampleHost.host) (Js.of_Z 1);
      "-t"; Js.NumberToString (Host := ExampleHost.host) (Js.of_Z 2);
      "-i"; "/audio/talk.wav"; "-c:a"; "pcm_s16le";
      "/snippets/snippet_1_2.wav" ].
Proof.
  apply (make_snippet_keeps_a_valid_request (H := ExampleHost.host));
    vm_compute; reflexivity.
Defined.

(** The window around [1, 2). *)
Lemma detail_window_start_is_the_snippet_start_example :
  Main.safeStart (H := ExampleHost.host)
    (Js.VPrim (Js.PNumber
       (Renderer.winStart
          (snd (Renderer.computeDetailWindow (Js.of_Z 1) (Js.of_Z 2) state0)))))
  = Renderer.detailWinStartAbs
      (fst (Renderer.computeDetailWindow (Js.of_Z 1) (Js.of_Z 2) state0)).
Proof.
  apply (detail_window_start_is_the_snippet_start (H := ExampleHost.host)
           (Js.of_Z 1) (Js.of_Z 2) state0).
  reflexivity.
Defined.


(** The shift-click on the third word asks for the snippet of the second
    and third. *)
Lemma click_reads_only_words_that_exist_example :
  exists seek startSec durSec,
    snd (RendererUi.click true 2
           (RendererUi.run
              [ RendererUi.ChooseClicked;
                RendererUi.ChooseAnswered (Some "/audio/talk.wav");
                RendererUi.Transcribed three_words;
                RendererUi.Click false 1 ]
              RendererUi.initial))
      = RendererUi.SnippetRequested seek "/audio/talk.wav" startSec durSec /\
    Renderer.selectionStart
      (RendererUi.dom (RendererUi.run two_clicks RendererUi.initial)) = Some 1 /\
    Renderer.selectionEnd
      (RendererUi.dom (RendererUi.run two_clicks RendererUi.initial)) = Some 2.
Proof.
  pose proof (click_reads_only_words_that_exist
                [ RendererUi.ChooseClicked;
                  RendererUi.ChooseAnswered (Some "/audio/talk.wav");
                  RendererUi.Transcribed three_words;
                  RendererUi.Click false 1 ] true 2) as Hclick.
  cbv zeta in Hclick.
  destruct (snd (RendererUi.click true 2 _)) as [|seek|seek|seek audio s d]
    eqn:Hout in Hclick.
  - exfalso. destruct Hclick as [_ Hno].
    apply (Hno {| Renderer.data_index := 2;
                  Renderer.classList := ["word"] |}); [|reflexivity].
    vm_compute. auto.
  - destruct Hclick.
  - exfalso. destruct Hclick as [[Hp|Hp] _]; vm_compute in Hp; discriminate Hp.
  - destruct Hclick as (Hp & _ & _).
    assert (audio = "/audio/talk.wav")
      by (vm_compute in Hp; inversion Hp; reflexivity).
    subst audio. exists seek, s, d.
    split; [exact Hout|]. split; vm_compute; reflexivity.
Defined.

(** Rendering the same transcript again while the playhead is on the
    second word. *)
Lemma rendering_drops_the_playhead_mark_example :
  RendererUi.playheadIndex
    (RendererUi.renderTranscript three_words
       (RendererUi.run two_clicks RendererUi.initial)) = 2 /\
  forall el,
    In el (Renderer.nodes
             (RendererUi.dom
                (RendererUi.renderTranscript three_words
                   (RendererUi.run two_clicks RendererUi.initial)))) ->
    Renderer.has_class "playhead" el = false.
Proof.
  destruct (rendering_drops_the_playhead_mark three_words
              (RendererUi.run two_clicks RendererUi.initial))
    as (Hno & Hkeep & _).
  split; [|exact Hno].
  destruct Hkeep as [Hpi _]; [vm_compute; split; [discriminate|reflexivity]|].
  rewrite Hpi. vm_compute. reflexivity.
Defined.

(** A name of 54 code units cut to 40, and a name whose extension leaves
    room for one character. *)
Lemma shortened_name_has_the_asked_length_example :
  Z.of_nat (List.length
    (RendererUi.shortenFilenameMiddle
       (JsText.lit "a_very_long_recording_name_for_the_demo_session_26.wav") 40))
    = 40 /\
  Z.of_nat (List.length
    (RendererUi.shortenFilenameMiddle
       (JsText.lit "abc.0123456789012345678901234567890123456") 40))
    = 43.
Proof.
  split.
  - destruct (shortened_name_has_the_asked_length
                (JsText.lit "a_very_long_recording_name_for_the_demo_session_26")
                (JsText.lit ".wav") 40) as [Hlong _].
    + right. exists (JsText.lit "wav"). split; [reflexivity|].
      vm_compute. intuition discriminate.
    + vm_compute. reflexivity.
    + destruct Hlong as [_ Hlen]; [vm_compute; discriminate|].
      exact Hlen.
  - destruct (shortened_name_has_the_asked_length
                (JsText.lit "abc")
                (JsText.lit ".0123456789012345678901234567890123456") 40)
      as [_ Hshort].
    + right. exists (JsText.lit "0123456789012345678901234567890123456").
      split; [reflexivity|]. vm_compute. intuition discriminate.
    + vm_compute. reflexivity.
    + destruct Hshort as [_ Hlen];
        [vm_compute; split; discriminate|].
      exact Hlen.
Defined.

(** The three bytes of the file, out of the pool of five. *)
Lemma readFileAsArrayBuffer_copies_only_the_file_example :
  Preload.readFileAsArrayBuffer pooled_read "/audio/talk.wav"
    = Js.Resolved [2; 3; 4]%N.
Proof.
  apply (readFileAsArrayBuffer_copies_only_the_file pooled_read
           "/audio/talk.wav" [1]%N [2; 3; 4]%N [5]%N).
  reflexivity.
Defined.
